(** * Cumulocity Python API: the Event model and the Events collection

    A shallow embedding of [c8y_api/model/events.py]: the [Event] model
    object with its JSON mapping and attachment operations, and the
    [Events] collection accessor with its query construction, lazy
    pagination, bulk creation and delete-by-filter; and of the helpers
    of [c8y_api/_util.py].

    The module imports its base classes ([ComplexObject],
    [CumulocityResource]), the field parser ([ComplexObjectParser]) and the
    date helper ([_DateUtil]) from files which are not part of the sources
    at hand.  Their behaviour is modelled from the specification; each such
    definition says so in its documentation. *)

From Stdlib Require Import ZArith String Ascii.
From stdpp Require Import gmap strings list fin_maps functions pretty.

Set Warnings "-register-all".
Open Scope string_scope.

(** ** Python values and JSON documents

    A JSON document as Python's [json] module loads it.  [JNull] is
    Python's [None]; a JSON object is a [dict] with string keys. *)

Inductive json :=
  | JNull
  | JBool (b : bool)
  | JNum (z : Z)
  | JStr (s : string)
  | JArr (l : list json)
  | JObj (m : gmap string json).

(** Python's truth value of an object, as tested by [if x] and [not x]. *)
Definition truthy (v : json) : bool :=
  match v with
  | JNull => false
  | JBool b => b
  | JNum z => negb (z =? 0)%Z
  | JStr s => negb (String.eqb s "")
  | JArr l => negb (Nat.eqb (List.length l) 0)
  | JObj m => negb (Nat.eqb (size m) 0)
  end.

(** [x is None] *)
Definition is_none (v : json) : bool :=
  match v with JNull => true | _ => false end.

(** ** Exceptions *)

Inductive exn :=
  | KeyError (key : string)
  | TypeError
  | ValueError (msg : string)
  | ParseError (key : string).

Inductive result (A : Type) :=
  | Ok (a : A)
  | Raise (e : exn).
Arguments Ok {A} a.
Arguments Raise {A} e.

Definition rbind {A B} (r : result A) (k : A -> result B) : result B :=
  match r with
  | Ok a => k a
  | Raise e => Raise e
  end.

Notation "'let?' x := r 'in' k" := (rbind r (fun x => k))
  (at level 10, x name, r at level 200, k at level 200).

(** [d[key]] on a Python dict: [KeyError] when the key is absent. *)
Definition getitem (d : gmap string json) (key : string) : result json :=
  match d !! key with
  | Some v => Ok v
  | None => Raise (KeyError key)
  end.

(** [v[key]] for a string key on an arbitrary value: only a dict can be
    subscripted by a string, every other value raises [TypeError]. *)
Definition subscript (v : json) (key : string) : result json :=
  match v with
  | JObj m => getitem m key
  | _ => Raise TypeError
  end.

(** ** The Event model object *)

(** The connection handle an object may carry.  Only its presence matters
    for the model; all traffic is recorded in the [World] below. *)
Inductive CumulocityRestApi :=
  | Connection (base_url : string).

(** The attributes of an [Event] instance.  [c8y], the server-assigned
    identifier [id], [fragments] and the change-tracking sets are
    inherited from the base classes; the other attributes are assigned in
    [Event.__init__]. *)
Record Event := mkEvent {
  c8y : option CumulocityRestApi;
  id : json;
  type : json;
  time : json;
  source : json;
  _u_text : json;
  creation_time : json;
  updated_time : json;
  fragments : gmap string json;
  _updated_fields : gset string;
  _updated_fragments : gset string
}.

(** [Event()]: every argument of [__init__] defaults to [None], there are
    no custom fragments and nothing is marked as updated. *)
Definition new_Event : Event :=
  {| c8y := None; id := JNull; type := JNull; time := JNull; source := JNull;
     _u_text := JNull; creation_time := JNull; updated_time := JNull;
     fragments := ∅; _updated_fields := ∅; _updated_fragments := ∅ |}.

Definition set_c8y (v : option CumulocityRestApi) (o : Event) : Event :=
  {| c8y := v; id := id o; type := type o; time := time o; source := source o;
     _u_text := _u_text o; creation_time := creation_time o;
     updated_time := updated_time o; fragments := fragments o;
     _updated_fields := _updated_fields o;
     _updated_fragments := _updated_fragments o |}.

Definition set_id (v : json) (o : Event) : Event :=
  {| c8y := c8y o; id := v; type := type o; time := time o; source := source o;
     _u_text := _u_text o; creation_time := creation_time o;
     updated_time := updated_time o; fragments := fragments o;
     _updated_fields := _updated_fields o;
     _updated_fragments := _updated_fragments o |}.

Definition set_type (v : json) (o : Event) : Event :=
  {| c8y := c8y o; id := id o; type := v; time := time o; source := source o;
     _u_text := _u_text o; creation_time := creation_time o;
     updated_time := updated_time o; fragments := fragments o;
     _updated_fields := _updated_fields o;
     _updated_fragments := _updated_fragments o |}.

Definition set_time (v : json) (o : Event) : Event :=
  {| c8y := c8y o; id := id o; type := type o; time := v; source := source o;
     _u_text := _u_text o; creation_time := creation_time o;
     updated_time := updated_time o; fragments := fragments o;
     _updated_fields := _updated_fields o;
     _updated_fragments := _updated_fragments o |}.

Definition set_source (v : json) (o : Event) : Event :=
  {| c8y := c8y o; id := id o; type := type o; time := time o; source := v;
     _u_text := _u_text o; creation_time := creation_time o;
     updated_time := updated_time o; fragments := fragments o;
     _updated_fields := _updated_fields o;
     _updated_fragments := _updated_fragments o |}.

Definition set__u_text (v : json) (o : Event) : Event :=
  {| c8y := c8y o; id := id o; type := type o; time := time o; source := source o;
     _u_text := v; creation_time := creation_time o;
     updated_time := updated_time o; fragments := fragments o;
     _updated_fields := _updated_fields o;
     _updated_fragments := _updated_fragments o |}.

Definition set_creation_time (v : json) (o : Event) : Event :=
  {| c8y := c8y o; id := id o; type := type o; time := time o; source := source o;
     _u_text := _u_text o; creation_time := v;
     updated_time := updated_time o; fragments := fragments o;
     _updated_fields := _updated_fields o;
     _updated_fragments := _updated_fragments o |}.

Definition set_updated_time (v : json) (o : Event) : Event :=
  {| c8y := c8y o; id := id o; type := type o; time := time o; source := source o;
     _u_text := _u_text o; creation_time := creation_time o;
     updated_time := v; fragments := fragments o;
     _updated_fields := _updated_fields o;
     _updated_fragments := _updated_fragments o |}.

Definition set_fragments (v : gmap string json) (o : Event) : Event :=
  {| c8y := c8y o; id := id o; type := type o; time := time o; source := source o;
     _u_text := _u_text o; creation_time := creation_time o;
     updated_time := updated_time o; fragments := v;
     _updated_fields := _updated_fields o;
     _updated_fragments := _updated_fragments o |}.

Definition set__updated_fields (v : gset string) (o : Event) : Event :=
  {| c8y := c8y o; id := id o; type := type o; time := time o; source := source o;
     _u_text := _u_text o; creation_time := creation_time o;
     updated_time := updated_time o; fragments := fragments o;
     _updated_fields := v;
     _updated_fragments := _updated_fragments o |}.

Definition set__updated_fragments (v : gset string) (o : Event) : Event :=
  {| c8y := c8y o; id := id o; type := type o; time := time o; source := source o;
     _u_text := _u_text o; creation_time := creation_time o;
     updated_time := updated_time o; fragments := fragments o;
     _updated_fields := _updated_fields o;
     _updated_fragments := v |}.

(** [getattr(o, name)] and [setattr(o, name, v)] for the attribute names
    the field parser knows; any other name is left alone. *)
Definition getattr (name : string) (o : Event) : json :=
  if String.eqb name "type" then type o
  else if String.eqb name "time" then time o
  else if String.eqb name "_u_text" then _u_text o
  else if String.eqb name "creation_time" then creation_time o
  else if String.eqb name "updated_time" then updated_time o
  else JNull.

Definition setattr (name : string) (v : json) (o : Event) : Event :=
  if String.eqb name "type" then set_type v o
  else if String.eqb name "time" then set_time v o
  else if String.eqb name "_u_text" then set__u_text v o
  else if String.eqb name "creation_time" then set_creation_time v o
  else if String.eqb name "updated_time" then set_updated_time v o
  else o.

(** [Event._resource] *)
Definition _resource : string := "/event/events".

(** [Event._parser]: the declared mapping from attribute names to JSON
    keys, and the JSON keys which are never read as fragments. *)
Definition _parser_mapping : list (string * string) :=
  [ ("type", "type");
    ("time", "time");
    ("_u_text", "text");
    ("creation_time", "creationTime");
    ("updated_time", "lastUpdated") ].

Definition _parser_no_fragments : list string := [ "source" ].

(** The JSON keys which are mapped to typed attributes, and the keys
    which are never read as fragments. *)
Definition mapped_keys : list string := _parser_mapping.*2.

Definition known_keys : list string :=
  (mapped_keys ++ _parser_no_fragments)%list.

(** Modelled from the spec: the property class behind
    [text = SimpleObject.UpdatableProperty('_u_text')], which is not among
    the sources.  Reading the property returns the internal attribute. *)
Definition text (o : Event) : json := _u_text o.

(** Modelled from the spec: assignment to the property [text], see
    above.  It stores the value and flags the internal attribute as
    changed since load.  The property is documented to hold a string. *)
Definition set_text (v : string) (o : Event) : Event :=
  set__updated_fields ({[ "_u_text" ]} ∪ _updated_fields o)
    (set__u_text (JStr v) o).

(** Modelled from the spec: item assignment [o[name] = v] of
    [ComplexObject], which is not among the sources.  It stores the custom
    fragment and flags it as changed since load. *)
Definition set_fragment (name : string) (v : json) (o : Event) : Event :=
  set__updated_fragments ({[ name ]} ∪ _updated_fragments o)
    (set_fragments (<[ name := v ]> (fragments o)) o).

(** Modelled from the spec: [ComplexObject.__contains__], which is not
    among the sources: [name in o] tests for a custom fragment. *)
Definition contains (name : string) (o : Event) : bool :=
  bool_decide (is_Some (fragments o !! name)).

Section Parser.

(** Modelled from the spec: the JSON keys whose absence makes the
    generic parser fail.  The specification demands a parse error for
    absent required keys and does not list them, hence they are a
    parameter of the model. *)
Variable required : list string.

(** Modelled from the spec: the check for required keys of the generic
    parser, which is not among the sources: the first required key which
    the document lacks. *)
Definition missing_key (j : gmap string json) : option string :=
  List.find (fun k => negb (bool_decide (is_Some (j !! k)))) required.

(** Modelled from the spec: the field mapping of the generic parser,
    which is not among the sources: each mapped key which the document
    holds is copied to its attribute. *)
Definition parse_fields (mapping : list (string * string))
    (j : gmap string json) (o : Event) : Event :=
  foldl (fun acc fk =>
           match j !! fk.2 with
           | Some v => setattr fk.1 v acc
           | None => acc
           end) o mapping.

(** Modelled from the spec: the fragment passthrough of the generic
    parser, which is not among the sources: every key which is neither
    mapped nor excluded in the parser's declaration is kept as a custom
    fragment. *)
Definition _parse_fragments (j : gmap string json) : gmap string json :=
  filter (fun kv : string * json =>
            (fst kv ∉ mapped_keys) ∧ (fst kv ∉ _parser_no_fragments)) j.

(** Modelled from the spec: [ComplexObject._from_json] with
    [ComplexObjectParser.from_json], which are not among the sources.  It
    fails when a required key is absent and otherwise fills the new
    object with the typed attributes and the custom fragments. *)
Definition _from_json (j : gmap string json) (new_obj : Event)
    : result Event :=
  match missing_key j with
  | Some k => Raise (ParseError k)
  | None =>
      Ok (set_fragments (_parse_fragments j)
            (parse_fields _parser_mapping j new_obj))
  end.

(** [Event.from_json] *)
Definition from_json (j : gmap string json) : result Event :=
  let? obj := _from_json j new_Event in
  let? src := getitem j "source" in
  let? src_id := subscript src "id" in
  Ok (set_source src_id obj).

End Parser.

(** Modelled from the spec: [ComplexObjectParser.to_json], which is not
    among the sources.  An attribute is written under its JSON key when it
    is included (or no inclusion set is given), not excluded and not
    [None]. *)
Definition format_fields (mapping : list (string * string)) (o : Event)
    (include : option (gset string)) (exclude : gset string)
    : gmap string json :=
  foldl (fun acc fk =>
           if (match include with
               | None => true
               | Some inc => bool_decide (fk.1 ∈ inc)
               end)
              && negb (bool_decide (fk.1 ∈ exclude))
              && negb (is_none (getattr fk.1 o))
           then <[ fk.2 := getattr fk.1 o ]> acc
           else acc) ∅ mapping.

(** Modelled from the spec: [ComplexObject._to_json], which is not among
    the sources.  The full document holds every set attribute and every
    custom fragment; the diff document holds only the attributes and
    fragments flagged as changed since load. *)
Definition _to_json (self : Event) (only_updated : bool)
    (exclude : gset string) : gmap string json :=
  let include :=
    if only_updated then Some (_updated_fields self) else None in
  let obj_json := format_fields _parser_mapping self include exclude in
  let frags :=
    if only_updated
    then filter (fun kv : string * json => fst kv ∈ _updated_fragments self)
           (fragments self)
    else fragments self in
  frags ∪ obj_json.

(** [Event.to_json] *)
Definition to_json (self : Event) (only_updated : bool)
    : gmap string json :=
  let obj_json := _to_json self only_updated {[ "creation_time" ]} in
  if negb only_updated && truthy (source self)
  then <[ "source" := JObj {[ "id" := source self ]} ]> obj_json
  else obj_json.

(** [Event.has_attachment] *)
Definition has_attachment (self : Event) : bool :=
  contains "c8y_IsBinary" self.

(** [d[key] = v] unless [v] is [None], the shape of a document entry for
    an attribute. *)
Definition opt_insert (key : string) (v : json) (d : gmap string json)
    : gmap string json :=
  if is_none v then d else <[ key := v ]> d.

(** An event as a device integration holds it: loaded from the platform,
    with a custom fragment. *)
Definition sample_event : Event :=
  {| c8y := Some (Connection "https://tenant.cumulocity.com");
     id := JStr "4711";
     type := JStr "c8y_LocationUpdate";
     time := JStr "2024-05-01T10:00:00.000Z";
     source := JStr "12345";
     _u_text := JStr "Location updated";
     creation_time := JStr "2024-05-01T10:00:01.000Z";
     updated_time := JStr "2024-05-01T10:00:02.000Z";
     fragments := {[ "c8y_Position" := JObj {[ "lat" := JNum 51; "lng" := JNum 7 ]} ]};
     _updated_fields := ∅; _updated_fragments := ∅ |}.

(** The document of an event as the platform delivers it. *)
Definition sample_json : gmap string json :=
  {[ "type" := JStr "c8y_LocationUpdate";
     "time" := JStr "2024-05-01T10:00:00.000Z";
     "text" := JStr "Location updated";
     "source" := JObj {[ "id" := JStr "12345" ]};
     "creationTime" := JStr "2024-05-01T10:00:01.000Z";
     "lastUpdated" := JStr "2024-05-01T10:00:02.000Z";
     "c8y_Position" := JObj {[ "lat" := JNum 51; "lng" := JNum 7 ]} ]}.

(** The object which [Event.from_json] builds from [sample_json]. *)
Definition sample_loaded : Event :=
  {| c8y := None;
     id := JNull;
     type := JStr "c8y_LocationUpdate";
     time := JStr "2024-05-01T10:00:00.000Z";
     source := JStr "12345";
     _u_text := JStr "Location updated";
     creation_time := JStr "2024-05-01T10:00:01.000Z";
     updated_time := JStr "2024-05-01T10:00:02.000Z";
     fragments := {[ "c8y_Position" := JObj {[ "lat" := JNum 51; "lng" := JNum 7 ]} ]};
     _updated_fields := ∅; _updated_fragments := ∅ |}.

(** ** Strings *)

(** [s.rindex(c)] for a one-character needle: the highest index at which
    [c] occurs in [s]; [None] stands for Python's [ValueError]. *)
Fixpoint rindex_from (c : ascii) (s : string) (i : nat) : option nat :=
  match s with
  | EmptyString => None
  | String a s' =>
      match rindex_from c s' (S i) with
      | Some j => Some j
      | None => if Ascii.eqb a c then Some i else None
      end
  end.

Definition rindex (s : string) (c : ascii) : option nat :=
  rindex_from c s 0.

(** [s[:n]] *)
Definition slice_to (s : string) (n : nat) : string :=
  String.substring 0 n s.

(** ['&'.join(parts)] *)
Definition join (sep : string) (parts : list string) : string :=
  String.concat sep parts.

(** [str(v)] for the values an identifier takes: strings and integers
    (and the constants).  Python's rendering of lists and dicts is not
    needed for identifiers and is left empty. *)
Definition str (v : json) : string :=
  match v with
  | JStr s => s
  | JNum z => pretty z
  | JBool true => "True"
  | JBool false => "False"
  | JNull => "None"
  | JArr _ | JObj _ => ""
  end.

(** ** The REST client and the world it talks to *)

Inductive request :=
  | GET (path : string)
  | POST (path : string) (body : gmap string json)
  | PUT (path : string) (body : gmap string json)
  | DELETE (path : string)
  | GET_FILE (path : string)
  | POST_FILE (path : string) (file : string) (accept : string)
      (content_type : option string)
  | PUT_FILE (path : string) (file : string) (accept : string)
      (content_type : option string).

(** The state outside of a call: the requests sent so far (oldest first),
    the number of clock readings taken so far, and the objects the caller
    holds, by reference. *)
Record World := mkWorld {
  requests : list request;
  ticks : nat;
  heap : nat -> Event
}.

Definition M (A : Type) : Type := World -> result A * World.

Definition ret {A} (a : A) : M A := fun w => (Ok a, w).

Definition raise {A} (e : exn) : M A := fun w => (Raise e, w).

Definition bind {A B} (m : M A) (k : A -> M B) : M B :=
  fun w =>
    match m w with
    | (Ok a, w') => k a w'
    | (Raise e, w') => (Raise e, w')
    end.

Definition lift {A} (r : result A) : M A := fun w => (r, w).

#[global] Instance M_ret : MRet M := @ret.
#[global] Instance M_bind : MBind M := fun A B k m => bind m k.

(** [for x in xs: body(x)] *)
Fixpoint for_each {A} (body : A -> M unit) (xs : list A) : M unit :=
  match xs with
  | [] => ret tt
  | x :: rest => body x ;; for_each body rest
  end.

(** The world after one more request. *)
Definition sent (r : request) (w : World) : World :=
  {| requests := requests w ++ [r]; ticks := ticks w; heap := heap w |}.

(** The number of page fetches (GET requests) among the requests sent. *)
Definition is_GET (r : request) : bool :=
  match r with GET _ => true | _ => false end.

Definition fetches (w : World) : nat :=
  List.length (List.filter is_GET (requests w)).

(** ** The filter arguments of the Events collection *)

(** A time-valued filter argument: a formatted string or a [datetime]
    object, the latter as a point in time. *)
Inductive timearg :=
  | TimeString (s : string)
  | Datetime (d : Z).

(** The filter arguments of [Events.select], in the order of its
    signature; an argument which is not given is [None]. *)
Module Filters.
Record t := make {
  type : option string;
  source : option string;
  fragment : option string;
  before : option timearg;
  after : option timearg;
  date_from : option timearg;
  date_to : option timearg;
  created_before : option timearg;
  created_after : option timearg;
  created_from : option timearg;
  created_to : option timearg;
  updated_before : option timearg;
  updated_after : option timearg;
  last_updated_from : option timearg;
  last_updated_to : option timearg;
  min_age : option Z;
  max_age : option Z
}.

Definition none : t :=
  make None None None None None None None None None None None None None
    None None None None.
End Filters.

(** The filter arguments of [Events.delete_by], the others not given. *)
Definition shared_filters (type source fragment : option string)
    (before after : option timearg) (min_age max_age : option Z)
    : Filters.t :=
  Filters.make type source fragment before after None None None None
    None None None None None None min_age max_age.

(** Calls with exactly one time-valued argument. *)
Definition only_before (x : timearg) : Filters.t :=
  Filters.make None None None (Some x) None None None None None None None
    None None None None None None.

Definition only_after (x : timearg) : Filters.t :=
  Filters.make None None None None (Some x) None None None None None None
    None None None None None None.

Definition only_date_from (x : timearg) : Filters.t :=
  Filters.make None None None None None (Some x) None None None None None
    None None None None None None.

Definition only_date_to (x : timearg) : Filters.t :=
  Filters.make None None None None None None (Some x) None None None None
    None None None None None None.

Definition only_created_before (x : timearg) : Filters.t :=
  Filters.make None None None None None None None (Some x) None None None
    None None None None None None.

Definition only_created_after (x : timearg) : Filters.t :=
  Filters.make None None None None None None None None (Some x) None None
    None None None None None None.

Definition only_created_from (x : timearg) : Filters.t :=
  Filters.make None None None None None None None None None (Some x) None
    None None None None None None.

Definition only_created_to (x : timearg) : Filters.t :=
  Filters.make None None None None None None None None None None (Some x)
    None None None None None None.

Definition only_updated_before (x : timearg) : Filters.t :=
  Filters.make None None None None None None None None None None None
    (Some x) None None None None None.

Definition only_updated_after (x : timearg) : Filters.t :=
  Filters.make None None None None None None None None None None None
    None (Some x) None None None None.

Definition only_last_updated_from (x : timearg) : Filters.t :=
  Filters.make None None None None None None None None None None None
    None None (Some x) None None None.

Definition only_last_updated_to (x : timearg) : Filters.t :=
  Filters.make None None None None None None None None None None None
    None None None (Some x) None None.

(** Modelled from the spec: the state of the generator which
    [CumulocityResource._iterate], which is not among the sources, returns
    to [Events.select]: the arguments it was called with, the page to
    fetch next, the number of elements handed out, the elements of the
    page at hand which are still to be handed out, the number of pages
    read, and whether the iteration has ended. *)
Record Iterator := mkIterator {
  base_query : string;
  page_number : option nat;
  limit : option nat;
  current_page : nat;
  num_results : nat;
  pending : list Event;
  pages_read : nat;
  exhausted : bool
}.

(** [a or b] on optional arguments. *)
Definition or_else {A} (a b : option A) : option A :=
  match a with
  | Some x => Some x
  | None => b
  end.

(** Modelled from the spec: the query keys which control pagination,
    the page size and the page number. *)
Definition pagination_keys : list string := [ "pageSize"; "currentPage" ].

(** The parameters of a query without those which control pagination. *)
Definition without_pagination (params : list (string * string))
    : list (string * string) :=
  List.filter (fun kv => negb (bool_decide (fst kv ∈ pagination_keys))) params.

(** Modelled from the spec: the rendering of a query in
    [_build_base_query], which is not among the sources: the resource
    path, ['?'] and the parameters, each as [key=value], joined by
    ['&']. *)
Definition render_query (params : list (string * string)) : string :=
  _resource ++ "?"
  ++ join "&" (List.map (fun kv => fst kv ++ "=" ++ snd kv) params).

(** Modelled from the spec: the pagination parameter which the page
    fetch appends to a base query, the key of the page number; its value
    follows it.  The base query itself is the query before this
    parameter is appended. *)
Definition page_param : string := "&currentPage=".

(** The n-th page, counted from one, of a result sequence. *)
Definition page_of (page_size n : nat) (ups : list (gmap string json))
    : list (gmap string json) :=
  take page_size (drop (page_size * (n - 1)) ups).

(** The document with which the platform answers the fetch of a page:
    the events under the name of the collection. *)
Definition page_json (items : list (gmap string json)) : json :=
  JObj {[ "events" := JArr (JObj <$> items) ]}.

(** The number of pages a consumer has made the generator of
    [select(limit=5, page_size=2)] fetch with [n] calls of [next]. *)
Definition pages_fetched (n : nat) : nat := Nat.min 3 (Nat.div2 (S n)).

(** Five events on the platform. *)
Definition sample_upstream : list (gmap string json) :=
  (fun n : Z =>
     {[ "type" := JStr "c8y_Alive";
        "text" := JStr ("Heartbeat " ++ pretty n);
        "source" := JObj {[ "id" := JStr "12345" ]} ]}) <$> [1; 2; 3; 4; 5]%Z.

(** A platform which serves [sample_upstream] in pages of two. *)
Definition sample_server (history : list request) (r : request) : json :=
  match r with
  | GET path =>
      if String.eqb path "/event/events?pageSize=2&currentPage=1"
      then page_json (page_of 2 1 sample_upstream)
      else if String.eqb path "/event/events?pageSize=2&currentPage=2"
      then page_json (page_of 2 2 sample_upstream)
      else if String.eqb path "/event/events?pageSize=2&currentPage=3"
      then page_json (page_of 2 3 sample_upstream)
      else page_json []
  | _ => JNull
  end.

(** The events which [Event.from_json] builds from [sample_upstream]. *)
Definition sample_events : list Event :=
  (fun n : Z =>
     {| c8y := None; id := JNull;
        type := JStr "c8y_Alive";
        time := JNull;
        source := JStr "12345";
        _u_text := JStr ("Heartbeat " ++ pretty n);
        creation_time := JNull; updated_time := JNull;
        fragments := ∅; _updated_fields := ∅; _updated_fragments := ∅ |})
    <$> [1; 2; 3; 4; 5]%Z.

(** A world in which nothing has happened yet. *)
Definition empty_world : World := mkWorld [] 0 (fun _ => new_Event).

(** The generator which [select(limit=5, page_size=2)] returns. *)
Definition sample_iterator : Iterator :=
  {| base_query := "/event/events?pageSize=2";
     page_number := None; limit := Some 5; current_page := 1;
     num_results := 0; pending := []; pages_read := 0; exhausted := false |}.

Section Platform.

(** The answer of the platform to a request, given the requests which
    were sent before.  Transport and server are outside of this layer. *)
Variable respond : list request -> request -> json.

(** Modelled from the spec: [_DateUtil.to_timestring], which is not among
    the sources: the ISO-8601 rendering, with UTC offset, of a point in
    time.  Points in time and durations are counted in microseconds. *)
Variable to_timestring : Z -> string.

(** [datetime.utcnow()]: the clock reading delivered by the n-th call. *)
Variable utcnow : nat -> Z.

(** URL quoting of a parameter value, a library function. *)
Variable quote : string -> string.

(** The required keys of the generic parser, see [_from_json]. *)
Variable required : list string.

(** The connection of the [Events] collection, [self.c8y]. *)
Variable conn : CumulocityRestApi.

(** A call of the REST client: the request is recorded and answered. *)
Definition send (r : request) : M json :=
  fun w => (Ok (respond (requests w) r), sent r w).

(** [datetime.utcnow()] *)
Definition read_clock : M Z :=
  fun w =>
    (Ok (utcnow (ticks w)),
     {| requests := requests w; ticks := S (ticks w); heap := heap w |}).

(** Reading the object behind a reference. *)
Definition load (l : nat) : M Event :=
  fun w => (Ok (heap w l), w).

(** Assignment to the object behind a reference. *)
Definition store (l : nat) (e : Event) : M unit :=
  fun w =>
    (Ok tt,
     {| requests := requests w; ticks := ticks w;
        heap := <[ l := e ]> (heap w) |}).

(** *** Attachments of an Event *)

(** Modelled from the spec: the precondition checks of the base class,
    which is not among the sources.  They fail, before any request, when
    the connection reference or the identifier is missing. *)
Definition _assert_c8y (self : Event) : M unit :=
  match c8y self with
  | Some _ => ret tt
  | None => raise (ValueError "Cumulocity connection reference must be set")
  end.

(** Modelled from the spec: the check for the identifier, see above. *)
Definition _assert_id (self : Event) : M unit :=
  if truthy (id self) then ret tt
  else raise (ValueError "The object ID must be set").

(** Modelled from the spec: the object path of the base class, which is
    not among the sources: the resource path followed by the
    identifier. *)
Definition _build_object_path (self : Event) : string :=
  _resource ++ "/" ++ str (id self).

(** [Event._build_attachment_path] *)
Definition _build_attachment_path (self : Event) : string :=
  _build_object_path self ++ "/binaries".

(** [Event.download_attachment] *)
Definition download_attachment (self : Event) : M json :=
  _assert_c8y self ;;
  _assert_id self ;;
  send (GET_FILE (_build_attachment_path self)).

(** [Event.create_attachment] *)
Definition create_attachment (self : Event) (file : string)
    (content_type : option string) : M json :=
  _assert_c8y self ;;
  _assert_id self ;;
  send (POST_FILE (_build_attachment_path self) file "application/json"
          content_type).

(** [Event.update_attachment] *)
Definition update_attachment (self : Event) (file : string)
    (content_type : option string) : M json :=
  _assert_c8y self ;;
  _assert_id self ;;
  send (PUT_FILE (_build_attachment_path self) file "application/json"
          content_type).

(** [Event.delete_attachment] *)
Definition delete_attachment (self : Event) : M unit :=
  _assert_c8y self ;;
  _assert_id self ;;
  _ ← send (DELETE (_build_attachment_path self));
  ret tt.

(** [Event.has_attachment] as a call in the world: it is an expression
    over the object alone. *)
Definition has_attachment_call (l : nat) : M bool :=
  self ← load l;
  ret (has_attachment self).

(** *** The Events collection *)

(** Modelled from the spec: [_DateUtil.ensure_timestring], which is not
    among the sources: a formatted string is taken as it is, a
    [datetime] is rendered. *)
Definition ensure_timestring (v : timearg) : string :=
  match v with
  | TimeString s => s
  | Datetime d => to_timestring d
  end.

(** Modelled from the spec: one parameter of a query, for an argument
    which is given, with its value quoted. *)
Definition param (key : string) (v : option string)
    : list (string * string) :=
  match v with
  | Some x => [ (key, quote x) ]
  | None => []
  end.

(** Modelled from the spec: the parameter of a time-valued argument,
    normalised to a formatted string. *)
Definition time_param (key : string) (v : option timearg)
    : list (string * string) :=
  param key (ensure_timestring <$> v).

(** Modelled from the spec: the date bound derived from an age, counted
    back from now. *)
Definition age_bound (now : Z) (age : option Z) : option timearg :=
  (fun a => Datetime (now - a)%Z) <$> age.

(** Modelled from the spec: the filter-to-query mapping of
    [CumulocityResource._build_base_query], which is not among the
    sources.  Every filter argument which is given contributes one
    parameter; aliased arguments share a key, the first one given in
    the order of the signature is used; an age yields the date bound
    derived from the clock reading [now]. *)
Definition _query_params (now : Z) (f : Filters.t)
    (reverse : option bool) (page_size : option nat)
    : list (string * string) :=
  param "type" (Filters.type f)
  ++ param "source" (Filters.source f)
  ++ param "fragmentType" (Filters.fragment f)
  ++ time_param "dateFrom"
       (or_else (Filters.after f)
          (or_else (Filters.date_from f)
             (age_bound now (Filters.max_age f))))
  ++ time_param "dateTo"
       (or_else (Filters.before f)
          (or_else (Filters.date_to f)
             (age_bound now (Filters.min_age f))))
  ++ time_param "createdFrom"
       (or_else (Filters.created_after f) (Filters.created_from f))
  ++ time_param "createdTo"
       (or_else (Filters.created_before f) (Filters.created_to f))
  ++ time_param "lastUpdatedFrom"
       (or_else (Filters.updated_after f) (Filters.last_updated_from f))
  ++ time_param "lastUpdatedTo"
       (or_else (Filters.updated_before f) (Filters.last_updated_to f))
  ++ match reverse with
     | Some true => [ ("revert", "true") ]
     | _ => []
     end
  ++ match page_size with
     | Some n => [ ("pageSize", pretty n) ]
     | None => []
     end.

(** Whether a query derives a date bound from an age. *)
Definition needs_clock (f : Filters.t) : bool :=
  bool_decide (is_Some (Filters.min_age f))
  || bool_decide (is_Some (Filters.max_age f)).

(** Modelled from the spec: [CumulocityResource._build_base_query], which
    is not among the sources: the base query is the rendering of the
    filter parameters, as it is before the parameter of the page number
    is appended.  The clock is read when an age is given. *)
Definition _build_base_query (f : Filters.t) (reverse : option bool)
    (page_size : option nat) : M string :=
  now ← (if needs_clock f then read_clock else ret 0%Z);
  ret (render_query (_query_params now f reverse page_size)).

(** The clock reading a query is built with, and the world after it. *)
Definition query_now (f : Filters.t) (w : World) : Z :=
  if needs_clock f then utcnow (ticks w) else 0%Z.

Definition after_query (f : Filters.t) (w : World) : World :=
  if needs_clock f
  then {| requests := requests w; ticks := S (ticks w); heap := heap w |}
  else w.

(** The parameters of [Events.select] for the filters which it shares
    with [Events.delete_by], the other arguments at their defaults. *)
Definition select_params (f : Filters.t) (w : World)
    : list (string * string) :=
  _query_params (query_now f w) f (Some false)
    (Some 1000).

(** Modelled from the spec: [CumulocityResource._get_page], which is not
    among the sources: one GET request for the base query with the
    parameter of the page number appended; the result is the list under
    the collection's name. *)
Definition _get_page (base_query : string) (page : nat) : M (list json) :=
  result_json ← send (GET (base_query ++ page_param ++ pretty page));
  items ← lift (subscript result_json "events");
  match items with
  | JArr l => ret l
  | _ => raise TypeError
  end.

(** [Event.from_json] applied to an element of a result page. *)
Definition parse_fun (x : json) : result Event :=
  match x with
  | JObj m => from_json required m
  | _ => Raise TypeError
  end.

(** Modelled from the spec: the parsing of a result page in [_iterate]:
    every element is parsed and carries the connection of the
    collection, as the objects returned by [Events.get] do. *)
Fixpoint parse_all (xs : list json) : result (list Event) :=
  match xs with
  | [] => Ok []
  | x :: rest =>
      let? e := parse_fun x in
      let? es := parse_all rest in
      Ok (set_c8y (Some conn) e :: es)
  end.

(** The generator after the end of the iteration. *)
Definition stop (it : Iterator) : Iterator :=
  {| base_query := base_query it; page_number := page_number it;
     limit := limit it; current_page := current_page it;
     num_results := num_results it; pending := [];
     pages_read := pages_read it; exhausted := true |}.

(** Whether as many elements as the limit allows were handed out. *)
Definition limit_reached (it : Iterator) : bool :=
  match limit it with
  | Some n => Nat.leb n (num_results it)
  | None => false
  end.

(** Modelled from the spec: [CumulocityResource._iterate], which is not
    among the sources, as a pull-based iterator.  One call of [next]
    resumes the generator until its next element: it ends when the limit
    is reached, hands out the next element of the page at hand, and
    otherwise fetches the following page, unless a specific page was
    asked for and has been read, and ends when that page is empty.
    [None] is the end of the iteration. *)
Definition next (it : Iterator) : M (option Event * Iterator) :=
  if exhausted it then ret (None, it)
  else if limit_reached it then ret (None, stop it)
  else
    match pending it with
    | e :: rest =>
        ret (Some e,
             {| base_query := base_query it; page_number := page_number it;
                limit := limit it; current_page := current_page it;
                num_results := S (num_results it); pending := rest;
                pages_read := pages_read it; exhausted := false |})
    | [] =>
        if bool_decide (is_Some (page_number it))
           && negb (Nat.eqb (pages_read it) 0)
        then ret (None, stop it)
        else
          page ← _get_page (base_query it) (current_page it);
          results ← lift (parse_all page);
          match results with
          | [] => ret (None, stop it)
          | e :: rest =>
              ret (Some e,
                   {| base_query := base_query it;
                      page_number := page_number it;
                      limit := limit it;
                      current_page := S (current_page it);
                      num_results := S (num_results it); pending := rest;
                      pages_read := S (pages_read it);
                      exhausted := false |})
          end
    end.

(** A consumer which calls [next] [n] times and collects the elements
    it is handed. *)
Fixpoint pull (n : nat) (it : Iterator) : M (list Event * Iterator) :=
  match n with
  | O => ret ([], it)
  | S n' =>
      r ← next it;
      rs ← pull n' (snd r);
      ret (match fst r with
           | Some e => e :: fst rs
           | None => fst rs
           end, snd rs)
  end.

(** [Events.select] *)
Definition select (f : Filters.t) (reverse : bool) (limit : option nat)
    (page_size : nat) (page_number : option nat) : M Iterator :=
  base_query ← _build_base_query f (Some reverse) (Some page_size);
  ret {| base_query := base_query; page_number := page_number;
         limit := limit;
         current_page := match page_number with
                         | Some p => p
                         | None => 1
                         end;
         num_results := 0; pending := []; pages_read := 0;
         exhausted := false |}.

(** [CumulocityResource._create] and [Event.to_full_json] are inherited
    from the base classes, which are not among the sources; [create]
    hands its objects over to them, whatever they do. *)
Variable _create : (Event -> gmap string json) -> list nat -> M unit.
Variable to_full_json : Event -> gmap string json.

(** The body of the loop of [Events.create]. *)
Definition default_time (l : nat) : M unit :=
  e ← load l;
  if negb (truthy (time e))
  then
    now ← read_clock;
    store l (set_time (JStr (to_timestring now)) e)
  else ret tt.

(** [Events.create] *)
Definition create (events : list nat) : M unit :=
  for_each default_time events;;
  _create to_full_json events.

(** [Events.delete_by] *)
Definition delete_by (type source fragment : option string)
    (before after : option timearg) (min_age max_age : option Z)
    : M unit :=
  base_query ←
    _build_base_query
      (Filters.make type source fragment before after None None None None
         None None None None None None min_age max_age)
      None None;
  match rindex base_query "&" with
  | Some i =>
      _ ← send (DELETE (slice_to base_query i));
      ret tt
  | None => raise (ValueError "substring not found")
  end.

End Platform.



(** ** Utilities: [c8y_api/_util.py] *)

(** [sub in s] on strings. *)
Definition str_in (sub s : string) : bool :=
  match String.index 0 sub s with
  | Some _ => true
  | None => false
  end.

(** [s.find(sub, start)] for a start which is not negative: the lowest
    index from [start] on at which [sub] occurs in [s], [-1] when there is
    none. *)
Definition find (s sub : string) (start : Z) : Z :=
  match String.index (Z.to_nat start) sub s with
  | Some i => Z.of_nat i
  | None => (-1)%Z
  end.

(** [c8y_keys], with [os.environ] as a dict. *)
Definition c8y_keys (environ : gmap string string) : gset string :=
  filter (fun x => str_in "C8Y_" x = true) (dom environ).

(** [validate_base_url] *)
Definition validate_base_url (url : string) : string :=
  let i := find url "://" 0 in
  let j := find url "/" (i + 3) in
  (if (i =? -1)%Z then "https://" else "")
  ++ (if (j =? -1)%Z then url else slice_to url (Z.to_nat j)).

(** ** The Events collection: access by identifier *)

Module Events.
Section Collection.

Variable respond : list request -> request -> json.
Variable to_timestring : Z -> string.
Variable utcnow : nat -> Z.
Variable quote : string -> string.
Variable required : list string.
Variable conn : CumulocityRestApi.

(** Modelled from the spec: [CumulocityResource.build_object_path], which
    is not among the sources: the resource path followed by the
    identifier. *)
Definition build_object_path (object_id : json) : string :=
  _resource ++ "/" ++ str object_id.

(** Modelled from the spec: [CumulocityResource._get_object], which is not
    among the sources: one GET request for the object path. *)
Definition _get_object (object_id : json) : M json :=
  send respond (GET (build_object_path object_id)).

(** [Events.get] *)
Definition get (event_id : json) : M Event :=
  j ← _get_object event_id;
  event_object ← lift (parse_fun required j);
  ret (set_c8y (Some conn) event_object).

(** [list(generator)]: the generator is resumed until it ends.  The
    number of elements it may hand out is bounded by [fuel]; [None] says
    that the bound was met before the end. *)
Fixpoint list_of (fuel : nat) (it : Iterator) : M (option (list Event)) :=
  match fuel with
  | O => ret None
  | S fuel' =>
      r ← next respond required conn it;
      match fst r with
      | None => ret (Some [])
      | Some e =>
          rs ← list_of fuel' (snd r);
          ret (cons e <$> rs)
      end
  end.

(** [Events.get_all] *)
Definition get_all (fuel : nat) (f : Filters.t) (reverse : bool)
    (limit : option nat) (page_size : nat) (page_number : option nat)
    : M (option (list Event)) :=
  it ← select to_timestring utcnow quote f reverse limit page_size
         page_number;
  list_of fuel it.

End Collection.
End Events.

(** The generator after it has handed out an element of the page at
    hand, and after it has fetched a page and handed out its first
    element. *)
Definition handed (it : Iterator) (rest : list Event) : Iterator :=
  {| base_query := base_query it; page_number := page_number it;
     limit := limit it; current_page := current_page it;
     num_results := S (num_results it); pending := rest;
     pages_read := pages_read it; exhausted := false |}.

Definition fetched (it : Iterator) (rest : list Event) : Iterator :=
  {| base_query := base_query it; page_number := page_number it;
     limit := limit it; current_page := S (current_page it);
     num_results := S (num_results it); pending := rest;
     pages_read := S (pages_read it); exhausted := false |}.

(** The request with which the generator fetches its next page. *)
Definition page_request (it : Iterator) : request :=
  GET (base_query it ++ page_param ++ pretty (current_page it)).

(** An environment with platform settings among others. *)
Definition sample_environ : gmap string string :=
  {[ "C8Y_BASEURL" := "https://tenant.cumulocity.com";
     "C8Y_TENANT" := "t12345";
     "MY_C8Y_USER" := "jane";
     "PATH" := "/usr/bin" ]}.

(** * Properties *)

(** ** The JSON mapping of an Event *)

Lemma default_opt (v : json) :
  default JNull (if is_none v then None else Some v) = v.
Proof. by destruct v. Qed.

Lemma lookup_opt_insert (k k' : string) (v : json) (m : gmap string json) :
  opt_insert k v m !! k' =
  if bool_decide (k = k')
  then (if is_none v then m !! k' else Some v)
  else m !! k'.
Proof.
  unfold opt_insert. case_bool_decide as Hk; destruct (is_none v); try done.
  - subst. by rewrite lookup_insert_eq.
  - by rewrite lookup_insert_ne.
Qed.

(** The object which the generic parser fills from a document. *)
Lemma parse_fields_new_Event (j : gmap string json) :
  parse_fields _parser_mapping j new_Event =
  {| c8y := None; id := JNull;
     type := default JNull (j !! "type");
     time := default JNull (j !! "time");
     source := JNull;
     _u_text := default JNull (j !! "text");
     creation_time := default JNull (j !! "creationTime");
     updated_time := default JNull (j !! "lastUpdated");
     fragments := ∅; _updated_fields := ∅; _updated_fragments := ∅ |}.
Proof.
  unfold parse_fields, _parser_mapping; cbn.
  destruct (j !! "type"), (j !! "time"), (j !! "text"),
    (j !! "creationTime"), (j !! "lastUpdated"); reflexivity.
Qed.

Lemma lookup_parse_fragments (j : gmap string json) (k : string) :
  _parse_fragments j !! k =
  if bool_decide (k ∈ known_keys) then None else j !! k.
Proof.
  unfold _parse_fragments, known_keys. case_bool_decide as Hk.
  - apply map_lookup_filter_None. right. intros v _ [H1 H2]. cbn in H1, H2.
    apply elem_of_app in Hk as [?|?]; contradiction.
  - destruct (j !! k) as [v|] eqn:E.
    + apply map_lookup_filter_Some. split; [done|]. cbn.
      split; intros ?; apply Hk, elem_of_app; auto.
    + apply map_lookup_filter_None. by left.
Qed.

(** The full document of the typed attributes: creation time is left
    out, and so is every attribute which is [None]. *)
Lemma format_fields_full (o : Event) :
  format_fields _parser_mapping o None {[ "creation_time" ]} =
  opt_insert "lastUpdated" (updated_time o)
    (opt_insert "text" (_u_text o)
       (opt_insert "time" (time o) (opt_insert "type" (type o) ∅))).
Proof.
  unfold format_fields, _parser_mapping, opt_insert.
  cbn.
  destruct (is_none (type o)), (is_none (time o)), (is_none (_u_text o)),
    (is_none (updated_time o)); vm_compute; reflexivity.
Qed.

(** The entries of the full document of the typed attributes. *)
Lemma lookup_format_fields_full (o : Event) (k : string) :
  format_fields _parser_mapping o None {[ "creation_time" ]} !! k =
  if String.eqb k "lastUpdated"
  then (if is_none (updated_time o) then None else Some (updated_time o))
  else if String.eqb k "text"
  then (if is_none (_u_text o) then None else Some (_u_text o))
  else if String.eqb k "time"
  then (if is_none (time o) then None else Some (time o))
  else if String.eqb k "type"
  then (if is_none (type o) then None else Some (type o))
  else None.
Proof.
  rewrite format_fields_full, !lookup_opt_insert, lookup_empty.
  repeat case_bool_decide; subst; cbn; try done;
    repeat match goal with
    | H : ?a ≠ k |- _ => apply not_eq_sym, String.eqb_neq in H; rewrite H
    end; by repeat case_match.
Qed.

(** The full document of an event whose source is set. *)
Lemma to_json_full (x : Event) :
  truthy (source x) = true →
  to_json x false =
  <[ "source" := JObj {[ "id" := source x ]} ]>
    (fragments x ∪ format_fields _parser_mapping x None {[ "creation_time" ]}).
Proof. intros Hs. unfold to_json, _to_json. cbn. by rewrite Hs. Qed.

Lemma not_known_key (k : string) :
  k ∉ known_keys →
  String.eqb k "lastUpdated" = false ∧ String.eqb k "text" = false
  ∧ String.eqb k "time" = false ∧ String.eqb k "type" = false
  ∧ k ≠ "source".
Proof.
  intros Hk. rewrite !String.eqb_neq.
  split; [|split; [|split; [|split]]];
    intros ->; apply Hk; unfold known_keys; cbn; set_solver.
Qed.

Lemma to_json_full_lookup (x : Event) (k : string) :
  truthy (source x) = true →
  k ≠ "source" →
  fragments x !! k = None →
  to_json x false !! k =
  format_fields _parser_mapping x None {[ "creation_time" ]} !! k.
Proof.
  intros Hs Hk Hf. rewrite to_json_full by done.
  rewrite lookup_insert_ne by done. by rewrite lookup_union_r.
Qed.

Section Json.

Variable required : list string.

Lemma missing_key_None (j : gmap string json) :
  missing_key required j = None ↔
  Forall (fun k => is_Some (j !! k)) required.
Proof.
  unfold missing_key. induction required as [|k ks IH]; cbn.
  - split; [constructor | reflexivity].
  - case_bool_decide as Hk; cbn.
    + rewrite IH. split; [by constructor | by inversion 1].
    + split; [discriminate | by inversion 1].
Qed.


(** [Event.from_json], case by case. *)
Lemma from_json_unfold (j : gmap string json) :
  from_json required j =
  match missing_key required j with
  | Some k => Raise (ParseError k)
  | None =>
      match j !! "source" with
      | None => Raise (KeyError "source")
      | Some v =>
          match subscript v "id" with
          | Raise x => Raise x
          | Ok i =>
              Ok {| c8y := None; id := JNull;
                    type := default JNull (j !! "type");
                    time := default JNull (j !! "time");
                    source := i;
                    _u_text := default JNull (j !! "text");
                    creation_time := default JNull (j !! "creationTime");
                    updated_time := default JNull (j !! "lastUpdated");
                    fragments := _parse_fragments j;
                    _updated_fields := ∅; _updated_fragments := ∅ |}
          end
      end
  end.
Proof.
  unfold from_json, _from_json.
  destruct (missing_key required j); [reflexivity |].
  rewrite parse_fields_new_Event. cbn. unfold getitem.
  destruct (j !! "source") as [v|]; [|reflexivity]. cbn.
  destruct (subscript v "id"); reflexivity.
Qed.

Lemma from_json_creation_time (j : gmap string json) (e : Event) :
  from_json required j = Ok e →
  creation_time e = default JNull (j !! "creationTime").
Proof.
  rewrite from_json_unfold.
  destruct (missing_key required j); [discriminate |].
  destruct (j !! "source") as [v|]; [|discriminate].
  destruct (subscript v "id"); [|discriminate].
  by intros [= <-].
Qed.

(** A loaded object carries no change marks. *)
Lemma from_json_unchanged (j : gmap string json) (e : Event) :
  from_json required j = Ok e →
  _updated_fields e = ∅ ∧ _updated_fragments e = ∅.
Proof.
  rewrite from_json_unfold.
  destruct (missing_key required j); [discriminate |].
  destruct (j !! "source") as [v|]; [|discriminate].
  destruct (subscript v "id"); [|discriminate].
  intros [= <-]. done.
Qed.


(** C3, as amended: for every event whose source is set, whose custom
    fragments are not named like a key of the typed attributes, and
    whose document holds every key the parser requires, [from_json]
    succeeds on [to_json] of the event, and the object it builds has the
    type, time, text, source and update time and all fragments of the
    event; its creation time is [None], because [to_json] never writes
    it. *)
Theorem from_json_to_json_roundtrip (x : Event) :
  truthy (source x) = true →
  Forall (fun k => fragments x !! k = None) known_keys →
  Forall (fun k => is_Some (to_json x false !! k)) required →
  ∃ x', from_json required (to_json x false) = Ok x'
        ∧ type x' = type x
        ∧ time x' = time x
        ∧ text x' = text x
        ∧ source x' = source x
        ∧ updated_time x' = updated_time x
        ∧ fragments x' = fragments x
        ∧ creation_time x' = JNull.
Proof.
  intros Hs Hfrag Hreq. rewrite Forall_forall in Hfrag.
  assert (Hmapped : ∀ k, k ∈ known_keys → k ≠ "source" →
            to_json x false !! k =
            format_fields _parser_mapping x None {[ "creation_time" ]} !! k).
  { intros k Hin Hne. apply to_json_full_lookup; auto. }
  rewrite from_json_unfold.
  apply missing_key_None in Hreq. rewrite Hreq.
  assert (Hsrc : to_json x false !! "source"
                 = Some (JObj {[ "id" := source x ]})).
  { rewrite to_json_full by done. apply lookup_insert_eq. }
  rewrite Hsrc. cbn. unfold getitem. rewrite lookup_singleton_eq.
  eexists. split; [reflexivity |]. cbn.
  rewrite !Hmapped by (unfold known_keys; cbn; set_solver || done).
  rewrite !lookup_format_fields_full. cbn.
  rewrite !default_opt.
  repeat (split; [reflexivity |]). split; [|reflexivity].
  apply map_eq. intros k. rewrite lookup_parse_fragments.
  case_bool_decide as Hk.
  - symmetry. by apply Hfrag.
  - apply not_known_key in Hk as (H1 & H2 & H3 & H4 & H5).
    rewrite to_json_full by done. rewrite lookup_insert_ne by done.
    apply lookup_union_l. rewrite lookup_format_fields_full.
    by rewrite H1, H2, H3, H4.
Qed.

(** C4: for every event loaded from JSON whose text is then assigned,
    the diff document [to_json(only_updated=True)] holds the key [text]
    with the new value and no other key: no unchanged attribute, no
    fragment, no [source] and no [creationTime]. *)
Theorem to_json_diff_after_text_update (j : gmap string json)
    (e : Event) (v : string) :
  from_json required j = Ok e →
  to_json (set_text v e) true = {[ "text" := JStr v ]}.
Proof.
  intros He. apply from_json_unchanged in He as [Hf Hg].
  unfold to_json, _to_json. cbn [negb andb].
  assert (Hfrags :
    filter (fun kv : string * json =>
              fst kv ∈ _updated_fragments (set_text v e))
      (fragments (set_text v e)) = ∅).
  { apply map_eq. intros k. rewrite lookup_empty.
    apply map_lookup_filter_None. right. intros w _. cbn.
    rewrite Hg. set_solver. }
  rewrite Hfrags, (left_id_L ∅ (∪)).
  unfold format_fields, _parser_mapping.
  cbn [foldl fst snd getattr set_text set__updated_fields _updated_fields].
  rewrite Hf. vm_compute. reflexivity.
Qed.

End Json.

(** C3, counterexample: the sample event has a creation time, and whatever
    the parser requires, no object built by [from_json] from the event's
    document has that creation time. *)
Lemma roundtrip_drops_creation_time :
  ¬ ∃ required x',
      from_json required (to_json sample_event false) = Ok x'
      ∧ creation_time x' = creation_time sample_event.
Proof.
  intros (required & x' & Hx & Hc).
  apply from_json_creation_time in Hx.
  assert (Hj : to_json sample_event false !! "creationTime" = None)
    by (vm_compute; reflexivity).
  rewrite Hj in Hx. cbn in Hx, Hc. congruence.
Qed.


(** An event without a source does not survive the round trip either:
    its document has no [source] key, on which [from_json] insists. *)
Example roundtrip_needs_source :
  from_json [] (to_json (set_source JNull sample_event) false)
  = Raise (KeyError "source").
Proof. vm_compute. reflexivity. Qed.

Lemma from_json_to_json_roundtrip_witness :
  ∃ x', from_json [ "type"; "time" ] (to_json sample_event false) = Ok x'
        ∧ type x' = type sample_event
        ∧ time x' = time sample_event
        ∧ text x' = text sample_event
        ∧ source x' = source sample_event
        ∧ updated_time x' = updated_time sample_event
        ∧ fragments x' = fragments sample_event
        ∧ creation_time x' = JNull.
Proof.
  apply (from_json_to_json_roundtrip [ "type"; "time" ] sample_event).
  - reflexivity.
  - unfold known_keys. cbn. repeat constructor.
  - repeat constructor; vm_compute; eauto.
Defined.

Example from_json_sample : from_json [] sample_json = Ok sample_loaded.
Proof. vm_compute. reflexivity. Qed.

Lemma to_json_diff_after_text_update_witness :
  to_json (set_text "Position lost" sample_loaded) true
  = {[ "text" := JStr "Position lost" ]}.
Proof.
  apply (to_json_diff_after_text_update [] sample_json).
  vm_compute. reflexivity.
Defined.

(** ** Attachments *)

(** C10: [Event.has_attachment] answers [True] exactly when the object
    holds a fragment named [c8y_IsBinary]; as a call it sends no request
    and leaves the world, and with it the object, as it was. *)
Theorem has_attachment_reads_local_fragment (l : nat) (w : World) :
  has_attachment_call l w = (Ok (has_attachment (heap w l)), w)
  ∧ (has_attachment (heap w l) = true
     ↔ is_Some (fragments (heap w l) !! "c8y_IsBinary")).
Proof.
  split; [reflexivity |].
  unfold has_attachment, contains. apply bool_decide_eq_true.
Qed.

Section Attachments.

Variable respond : list request -> request -> json.

(** C9: each attachment operation of an event first checks the
    connection reference and the identifier.  When one of them is
    missing it raises a [ValueError] and the world is unchanged, so no
    request was sent; when both are present it sends exactly one
    request, to the object path of the event followed by
    [/binaries]. *)
Theorem attachment_operations_check_context_first (self : Event)
    (file : string) (content_type : option string) (w : World) :
  let path := _build_object_path self ++ "/binaries" in
  match c8y self, truthy (id self) with
  | Some _, true =>
      download_attachment respond self w
      = (Ok (respond (requests w) (GET_FILE path)), sent (GET_FILE path) w)
      ∧ create_attachment respond self file content_type w
        = (Ok (respond (requests w)
                 (POST_FILE path file "application/json" content_type)),
           sent (POST_FILE path file "application/json" content_type) w)
      ∧ update_attachment respond self file content_type w
        = (Ok (respond (requests w)
                 (PUT_FILE path file "application/json" content_type)),
           sent (PUT_FILE path file "application/json" content_type) w)
      ∧ delete_attachment respond self w = (Ok tt, sent (DELETE path) w)
  | _, _ =>
      (∃ msg, download_attachment respond self w
              = (Raise (ValueError msg), w))
      ∧ (∃ msg, create_attachment respond self file content_type w
                = (Raise (ValueError msg), w))
      ∧ (∃ msg, update_attachment respond self file content_type w
                = (Raise (ValueError msg), w))
      ∧ (∃ msg, delete_attachment respond self w
                = (Raise (ValueError msg), w))
  end.
Proof.
  unfold download_attachment, create_attachment, update_attachment,
    delete_attachment, _build_attachment_path, _assert_c8y, _assert_id.
  destruct (c8y self) as [c|], (truthy (id self)); cbn;
    repeat split; eauto.
Qed.

End Attachments.

(** ** Strings *)

Lemma string_app_cons (a : ascii) (s t : string) :
  String a s ++ t = String a (s ++ t).
Proof. reflexivity. Qed.

Lemma string_app_nil (t : string) : "" ++ t = t.
Proof. reflexivity. Qed.

Lemma string_app_assoc (a b c : string) : (a ++ b) ++ c = a ++ (b ++ c).
Proof.
  induction a as [|x a IH]; [reflexivity |].
  by rewrite !string_app_cons, IH.
Qed.

Lemma string_length_app (a b : string) :
  String.length (a ++ b) = (String.length a + String.length b)%nat.
Proof.
  induction a as [|x a IH]; [reflexivity |].
  rewrite string_app_cons. cbn. by rewrite IH.
Qed.

Lemma slice_to_app (s t : string) :
  slice_to (s ++ t) (String.length s) = s.
Proof.
  unfold slice_to. induction s as [|a s IH].
  - by destruct t.
  - rewrite string_app_cons.
    cbn [String.length String.substring]. by rewrite IH.
Qed.

(** Whether a character occurs does not depend on where the count of
    the indices starts. *)
Lemma rindex_from_None (c : ascii) (s : string) (i k : nat) :
  rindex_from c s i = None → rindex_from c s k = None.
Proof.
  revert i k. induction s as [|a s IH]; intros i k; [done |].
  cbn [rindex_from].
  destruct (rindex_from c s (S i)) eqn:E; [discriminate |].
  rewrite (IH _ (S k) E). by destruct (Ascii.eqb a c).
Qed.

(** A text without the character, behind a text without it. *)
Lemma rindex_from_app_None (c : ascii) (s t : string) (i : nat) :
  rindex_from c s 0 = None → rindex_from c t 0 = None →
  rindex_from c (s ++ t) i = None.
Proof.
  revert i. induction s as [|a s IH]; intros i Hs Ht.
  - rewrite string_app_nil. by apply (rindex_from_None c t 0).
  - rewrite string_app_cons. cbn [rindex_from] in *.
    destruct (rindex_from c s 1) eqn:E; [discriminate |].
    rewrite IH; [by destruct (Ascii.eqb a c) | | done].
    by apply (rindex_from_None c s 1).
Qed.

(** The last occurrence of a character is the one behind which it does
    not occur any more. *)
Lemma rindex_from_last (c : ascii) (s t : string) (i : nat) :
  rindex_from c t 0 = None →
  rindex_from c (s ++ String c t) i = Some (i + String.length s)%nat.
Proof.
  intros Ht. revert i. induction s as [|a s IH]; intros i.
  - rewrite string_app_nil. cbn [rindex_from String.length].
    rewrite (rindex_from_None c t 0 (S i) Ht), Ascii.eqb_refl.
    f_equal. lia.
  - rewrite string_app_cons. cbn [rindex_from String.length].
    rewrite IH. f_equal. lia.
Qed.

(** ** Queries *)

Section Queries.

Variable respond : list request -> request -> json.
Variable to_timestring : Z -> string.
Variable utcnow : nat -> Z.
Variable quote : string -> string.

Lemma _build_base_query_run (f : Filters.t) (reverse : option bool)
    (page_size : option nat) (w : World) :
  _build_base_query to_timestring utcnow quote f reverse page_size w =
  (Ok (render_query
         (_query_params to_timestring quote (query_now utcnow f w) f reverse
            page_size)),
   after_query f w).
Proof.
  unfold _build_base_query, query_now, after_query.
  destruct (needs_clock f); reflexivity.
Qed.

(** [Events.delete_by], flattened: the base query is cut at its last
    ['&'] and the rest is sent as one DELETE request; a base query
    without ['&'] raises the [ValueError] of [rindex], and nothing is
    sent. *)
Lemma delete_by_run (type source fragment : option string)
    (before after : option timearg) (min_age max_age : option Z)
    (w : World) :
  let f := shared_filters type source fragment before after min_age max_age in
  let query :=
    render_query
      (_query_params to_timestring quote (query_now utcnow f w) f None None) in
  delete_by respond to_timestring utcnow quote type source fragment before
    after min_age max_age w =
  match rindex query "&" with
  | Some i => (Ok tt, sent (DELETE (slice_to query i)) (after_query f w))
  | None => (Raise (ValueError "substring not found"), after_query f w)
  end.
Proof.
  intros f query. subst query f.
  unfold delete_by, shared_filters, mbind, M_bind, bind.
  rewrite _build_base_query_run. by destruct (rindex _ "&").
Qed.

(** C1: a call of [Events.delete_by] in which every filter argument is
    [None] does not issue an unrestricted DELETE request: it raises a
    [ValueError] and leaves the world as it was, so no request at all
    was sent. *)
Theorem delete_by_without_filter_sends_nothing (w : World) :
  delete_by respond to_timestring utcnow quote
    None None None None None None None w
  = (Raise (ValueError "substring not found"), w).
Proof. rewrite delete_by_run. reflexivity. Qed.

Lemma without_pagination_params (now : Z) (f : Filters.t) :
  without_pagination
    (_query_params to_timestring quote now f (Some false) (Some 1000))
  = _query_params to_timestring quote now f None None.
Proof.
  unfold _query_params, without_pagination, time_param, param.
  rewrite !List.filter_app.
  destruct (Filters.type f), (Filters.source f), (Filters.fragment f),
    (ensure_timestring to_timestring <$>
       or_else (Filters.after f)
         (or_else (Filters.date_from f) (age_bound now (Filters.max_age f)))),
    (ensure_timestring to_timestring <$>
       or_else (Filters.before f)
         (or_else (Filters.date_to f) (age_bound now (Filters.min_age f)))),
    (ensure_timestring to_timestring <$>
       or_else (Filters.created_after f) (Filters.created_from f)),
    (ensure_timestring to_timestring <$>
       or_else (Filters.created_before f) (Filters.created_to f)),
    (ensure_timestring to_timestring <$>
       or_else (Filters.updated_after f) (Filters.last_updated_from f)),
    (ensure_timestring to_timestring <$>
       or_else (Filters.updated_before f) (Filters.last_updated_to f));
    reflexivity.
Qed.

(** The rendering of two parameters is the rendering of the first one
    followed by ['&'] and the second one. *)
Lemma render_query_two (p1 p2 : string * string) :
  render_query [ p1; p2 ]
  = render_query [ p1 ] ++ String "&" (fst p2 ++ "=" ++ snd p2).
Proof.
  unfold render_query, join. cbn [List.map String.concat].
  by rewrite !string_app_assoc.
Qed.

(** C2, the defect at work: for an event type and a source, where the
    quoted source holds no ['&'], [Events.delete_by] sends a DELETE
    request whose query holds the type alone: the cut at the last ['&']
    removes the source, for the base query ends with its last filter.
    The query of [Events.select] for the same filters, without the
    pagination parameters, holds both. *)
Theorem delete_by_cuts_last_filter (type source : string) (w : World) :
  rindex (quote source) "&" = None →
  let f :=
    shared_filters (Some type) (Some source) None None None None None in
  delete_by respond to_timestring utcnow quote (Some type) (Some source)
    None None None None None w
  = (Ok tt, sent (DELETE (render_query [ ("type", quote type) ])) w)
  ∧ without_pagination (select_params to_timestring utcnow quote f w)
    = [ ("type", quote type); ("source", quote source) ].
Proof.
  intros Hq f. split.
  - rewrite delete_by_run. fold f.
    change (_query_params to_timestring quote (query_now utcnow f w) f
              None None)
      with [ ("type", quote type); ("source", quote source) ].
    change (after_query f w) with w.
    rewrite render_query_two. cbn [fst snd].
    assert (Hlast : rindex_from "&" ("source" ++ "=" ++ quote source) 0
                    = None).
    { apply rindex_from_app_None; [reflexivity |].
      by apply (rindex_from_app_None "&" "=" (quote source)). }
    unfold rindex. rewrite (rindex_from_last "&" _ _ 0 Hlast).
    cbn [Nat.add]. by rewrite slice_to_app.
  - unfold select_params. by rewrite without_pagination_params.
Qed.

(** C7: for every value [x], a string or a datetime, each of the aliased
    arguments yields the same single parameter as its twin, under the
    same query key, and [Events.select] builds the same base query for
    both. *)
Theorem aliased_arguments_build_identical_queries (x : timearg)
    (reverse : bool) (limit : option nat) (page_size : nat)
    (page_number : option nat) (now : Z) (w : World) :
  let value := quote (ensure_timestring to_timestring x) in
  let params f := _query_params to_timestring quote now f None None in
  let query f :=
    select to_timestring utcnow quote f reverse limit page_size
      page_number w in
  (params (only_before x) = [ ("dateTo", value) ]
   ∧ params (only_date_to x) = [ ("dateTo", value) ]
   ∧ query (only_before x) = query (only_date_to x))
  ∧ (params (only_after x) = [ ("dateFrom", value) ]
     ∧ params (only_date_from x) = [ ("dateFrom", value) ]
     ∧ query (only_after x) = query (only_date_from x))
  ∧ (params (only_created_before x) = [ ("createdTo", value) ]
     ∧ params (only_created_to x) = [ ("createdTo", value) ]
     ∧ query (only_created_before x) = query (only_created_to x))
  ∧ (params (only_created_after x) = [ ("createdFrom", value) ]
     ∧ params (only_created_from x) = [ ("createdFrom", value) ]
     ∧ query (only_created_after x) = query (only_created_from x))
  ∧ (params (only_updated_before x) = [ ("lastUpdatedTo", value) ]
     ∧ params (only_last_updated_to x) = [ ("lastUpdatedTo", value) ]
     ∧ query (only_updated_before x) = query (only_last_updated_to x))
  ∧ (params (only_updated_after x) = [ ("lastUpdatedFrom", value) ]
     ∧ params (only_last_updated_from x) = [ ("lastUpdatedFrom", value) ]
     ∧ query (only_updated_after x) = query (only_last_updated_from x)).
Proof. cbv zeta. repeat split; reflexivity. Qed.

End Queries.

Lemma delete_by_cuts_last_filter_witness :
  delete_by (fun _ _ => JNull) (fun _ => "") (fun _ => 0%Z) (fun v => v)
    (Some "c8y_Alive") (Some "12345") None None None None None empty_world
  = (Ok tt,
     sent (DELETE (render_query [ ("type", "c8y_Alive") ])) empty_world)
  ∧ without_pagination
      (select_params (fun _ => "") (fun _ => 0%Z) (fun v => v)
         (shared_filters (Some "c8y_Alive") (Some "12345") None None None
            None None) empty_world)
    = [ ("type", "c8y_Alive"); ("source", "12345") ].
Proof.
  apply (delete_by_cuts_last_filter (fun _ _ => JNull) (fun _ => "")
           (fun _ => 0%Z) (fun v => v) "c8y_Alive" "12345" empty_world).
  reflexivity.
Defined.

(** The requests behind the defect: the filter for the source is gone
    from the query which is sent, and a call with a single filter raises
    instead of deleting. *)
Example delete_by_sample_queries :
  snd (delete_by (fun _ _ => JNull) (fun _ => "") (fun _ => 0%Z) (fun v => v)
         (Some "c8y_Alive") (Some "12345") None None None None None
         empty_world)
  = mkWorld [ DELETE "/event/events?type=c8y_Alive" ] 0 (fun _ => new_Event)
  ∧ delete_by (fun _ _ => JNull) (fun _ => "") (fun _ => 0%Z) (fun v => v)
      (Some "c8y_Alive") None None None None None None empty_world
    = (Raise (ValueError "substring not found"), empty_world).
Proof. split; reflexivity. Qed.

(** ** Bulk creation *)

Lemma set_time_set_time (v v' : json) (e : Event) :
  set_time v (set_time v' e) = set_time v e.
Proof. reflexivity. Qed.

Section Create.

Variable to_timestring : Z -> string.
Variable utcnow : nat -> Z.
Variable _create : (Event -> gmap string json) -> list nat -> M unit.
Variable to_full_json : Event -> gmap string json.

(** One round of the loop of [Events.create]. *)
Lemma default_time_run (l : nat) (w : World) :
  default_time to_timestring utcnow l w =
  (Ok tt,
   if truthy (time (heap w l)) then w
   else {| requests := requests w; ticks := S (ticks w);
           heap := <[ l := set_time (JStr (to_timestring (utcnow (ticks w))))
                             (heap w l) ]> (heap w) |}).
Proof.
  unfold default_time, mbind, M_bind, bind, load. cbn.
  destruct (truthy (time (heap w l))); reflexivity.
Qed.

(** The loop of [Events.create]: it sends nothing, leaves every object
    alone which is not among the events or has its time set, and stamps
    the others with a clock reading taken during the loop. *)
Lemma default_times_run (events : list nat) (w : World) :
  ∃ w',
    for_each (default_time to_timestring utcnow) events w = (Ok tt, w')
    ∧ requests w' = requests w
    ∧ (ticks w ≤ ticks w')%nat
    ∧ ∀ l,
        (l ∉ events → heap w' l = heap w l)
        ∧ (truthy (time (heap w l)) = true → heap w' l = heap w l)
        ∧ (l ∈ events → truthy (time (heap w l)) = false →
           ∃ k, (ticks w ≤ k < ticks w')%nat
                ∧ heap w' l
                  = set_time (JStr (to_timestring (utcnow k))) (heap w l)).
Proof.
  revert w. induction events as [|l0 rest IH]; intros w.
  - exists w. cbn. repeat split; try done. intros Hin. by apply elem_of_nil in Hin.
  - cbn [for_each]. unfold mbind, M_bind, bind.
    rewrite default_time_run.
    destruct (truthy (time (heap w l0))) eqn:Ht.
    + destruct (IH w) as (w' & Hrun & Hreq & Htick & Hheap).
      exists w'. rewrite Hrun. split; [done |]. split; [done |].
      split; [done |]. intros l.
      destruct (Hheap l) as (Hout & Hset & Hunset). repeat split.
      * intros Hl. apply Hout. apply not_elem_of_cons in Hl. tauto.
      * done.
      * intros Hl Hf. apply elem_of_cons in Hl as [-> | Hl]; [congruence |].
        by apply Hunset.
    + set (stamp := set_time (JStr (to_timestring (utcnow (ticks w))))
                      (heap w l0)).
      set (w1 := {| requests := requests w; ticks := S (ticks w);
                    heap := <[ l0 := stamp ]> (heap w) |}).
      destruct (IH w1) as (w' & Hrun & Hreq & Htick & Hheap).
      exists w'. rewrite Hrun. cbn in Hreq, Htick.
      split; [done |]. split; [done |]. split; [lia |].
      intros l. destruct (decide (l = l0)) as [-> | Hne].
      * assert (H1 : heap w1 l0 = stamp) by apply fn_lookup_insert.
        repeat split.
        -- intros Hl. exfalso. apply Hl. apply elem_of_cons. by left.
        -- congruence.
        -- intros _ _. destruct (Hheap l0) as (Hout & Hset & Hunset).
           destruct (truthy (time (heap w1 l0))) eqn:Ht1.
           ++ exists (ticks w). split; [lia |]. rewrite Hset by done. done.
           ++ destruct (decide (l0 ∈ rest)) as [Hin | Hnin].
              ** destruct (Hunset Hin eq_refl) as (k & Hk & ->).
                 exists k. cbn in Hk. split; [lia |]. by rewrite H1.
              ** exists (ticks w). split; [lia |]. rewrite Hout by done. done.
      * assert (H1 : heap w1 l = heap w l) by by apply fn_lookup_insert_ne.
        destruct (Hheap l) as (Hout & Hset & Hunset). rewrite H1 in *.
        repeat split.
        -- intros Hl. apply Hout. apply not_elem_of_cons in Hl. tauto.
        -- done.
        -- intros Hl Hf. apply elem_of_cons in Hl as [-> | Hl]; [done |].
           destruct (Hunset Hl Hf) as (k & Hk & ->).
           exists k. cbn in Hk. split; [lia | done].
Qed.

(** C8: [Events.create] hands its events over for creation in a world in
    which no request has been sent yet and in which every event whose
    time was unset, [None] or empty, carries a clock reading taken during
    the call, formatted as a string, as its time; the events whose time
    was set, and all other objects, are as they were. *)
Theorem create_defaults_unset_times (events : list nat) (w : World) :
  ∃ w',
    create to_timestring utcnow _create to_full_json events w
    = _create to_full_json events w'
    ∧ requests w' = requests w
    ∧ ∀ l,
        (l ∉ events → heap w' l = heap w l)
        ∧ (truthy (time (heap w l)) = true → heap w' l = heap w l)
        ∧ (l ∈ events → truthy (time (heap w l)) = false →
           ∃ k, (ticks w ≤ k < ticks w')%nat
                ∧ heap w' l
                  = set_time (JStr (to_timestring (utcnow k))) (heap w l)).
Proof.
  destruct (default_times_run events w) as (w' & Hrun & Hreq & _ & Hheap).
  exists w'. split; [|split; [done | done]].
  unfold create, mbind, M_bind, bind. by rewrite Hrun.
Qed.

End Create.

(** Two events handed to [Events.create], the first without a time: only
    the first is stamped, with the first clock reading.  An event which
    is handed over twice is stamped once. *)
Example create_stamps_the_unset_event :
  let w := mkWorld [] 0 (fun l => if Nat.eqb l 0
                                  then set_time JNull sample_event
                                  else sample_event) in
  let w' := snd (create (fun d => "T" ++ pretty d) (fun n => Z.of_nat n + 100)%Z
                   (fun _ _ => ret tt) (fun e => to_json e false) [0; 1]%nat w) in
  time (heap w' 0%nat) = JStr "T100"
  ∧ time (heap w' 1%nat) = JStr "2024-05-01T10:00:00.000Z"
  ∧ ticks w' = 1%nat.
Proof. cbv zeta. repeat split; reflexivity. Qed.

Example create_stamps_an_event_once :
  let w := mkWorld [] 0 (fun _ => set_time JNull sample_event) in
  let w' := snd (create (fun d => "T" ++ pretty d) (fun n => Z.of_nat n + 100)%Z
                   (fun _ _ => ret tt) (fun e => to_json e false) [0; 0]%nat w) in
  time (heap w' 0%nat) = JStr "T100" ∧ ticks w' = 1%nat.
Proof. cbv zeta. repeat split; reflexivity. Qed.

(** ** Pagination *)

Lemma fetches_sent_GET (path : string) (w : World) :
  fetches (sent (GET path) w) = S (fetches w).
Proof.
  unfold fetches, sent. cbn. rewrite List.filter_app, List.length_app.
  cbn. lia.
Qed.

Section Pagination.

Variable respond : list request -> request -> json.
Variable required : list string.
Variable conn : CumulocityRestApi.

Lemma parse_all_Forall2 (us : list (gmap string json)) (es : list Event) :
  Forall2 (fun u e => from_json required u = Ok e) us es →
  parse_all required conn (JObj <$> us) = Ok (set_c8y (Some conn) <$> es).
Proof.
  induction 1 as [|u e us es Hu _ IH]; [reflexivity |].
  cbn. rewrite Hu. cbn. by rewrite IH.
Qed.

(** The four ways in which the generator is resumed. *)
Lemma next_exhausted (it : Iterator) (w : World) :
  exhausted it = true → next respond required conn it w = (Ok (None, it), w).
Proof. intros H. unfold next. by rewrite H. Qed.

Lemma next_limit (it : Iterator) (w : World) :
  exhausted it = false → limit_reached it = true →
  next respond required conn it w = (Ok (None, stop it), w).
Proof. intros H1 H2. unfold next. by rewrite H1, H2. Qed.

Lemma next_pending (it : Iterator) (w : World) (e : Event)
    (es : list Event) :
  exhausted it = false → limit_reached it = false → pending it = e :: es →
  next respond required conn it w =
  (Ok (Some e,
       {| base_query := base_query it; page_number := page_number it;
          limit := limit it; current_page := current_page it;
          num_results := S (num_results it); pending := es;
          pages_read := pages_read it; exhausted := false |}), w).
Proof. intros H1 H2 H3. unfold next. by rewrite H1, H2, H3. Qed.

Lemma next_fetch (it : Iterator) (w : World)
    (page : list (gmap string json)) (e : Event) (es : list Event) :
  exhausted it = false → limit_reached it = false → pending it = [] →
  page_number it = None →
  respond (requests w)
    (GET (base_query it ++ page_param ++ pretty (current_page it)))
  = page_json page →
  parse_all required conn (JObj <$> page) = Ok (e :: es) →
  next respond required conn it w =
  (Ok (Some e,
       {| base_query := base_query it; page_number := page_number it;
          limit := limit it; current_page := S (current_page it);
          num_results := S (num_results it); pending := es;
          pages_read := S (pages_read it); exhausted := false |}),
   sent (GET (base_query it ++ page_param ++ pretty (current_page it))) w).
Proof.
  intros H1 H2 H3 H4 Hpage Hparse. unfold next.
  rewrite H1, H2, H3, H4. cbn [bool_decide andb].
  replace (bool_decide (is_Some (@None nat))) with false
    by (symmetry; apply bool_decide_eq_false; by inversion 1).
  cbn [andb]. unfold _get_page, send, lift.
  unfold mbind, M_bind, bind. cbv beta iota.
  rewrite Hpage. unfold page_json. cbn [subscript]. unfold getitem.
  rewrite lookup_singleton_eq. unfold ret. by rewrite Hparse.
Qed.

Lemma pull_S (n : nat) (it : Iterator) (w : World) :
  pull respond required conn (S n) it w =
  match next respond required conn it w with
  | (Ok r, w1) =>
      match pull respond required conn n (snd r) w1 with
      | (Ok rs, w2) =>
          (Ok (match fst r with
               | Some e => e :: fst rs
               | None => fst rs
               end, snd rs), w2)
      | (Raise x, w2) => (Raise x, w2)
      end
  | (Raise x, w1) => (Raise x, w1)
  end.
Proof. reflexivity. Qed.

(** An exhausted generator stays exhausted and fetches nothing. *)
Lemma pull_exhausted (n : nat) (it : Iterator) (w : World) :
  exhausted it = true →
  pull respond required conn n it w = (Ok ([], it), w).
Proof.
  intros H. induction n as [|n IH]; [reflexivity |].
  rewrite pull_S, next_exhausted by done. cbn. by rewrite IH.
Qed.

End Pagination.

Section Select.

Variable respond : list request -> request -> json.
Variable to_timestring : Z -> string.
Variable utcnow : nat -> Z.
Variable quote : string -> string.
Variable required : list string.
Variable conn : CumulocityRestApi.

(** C6: when the platform holds at least five events and serves them in
    pages of two, a consumer of [select(limit=5, page_size=2)] is handed,
    with [n] calls of [next], the first [n] of the first five events; the
    requests sent by then are the fetches of the pages one to
    [pages_fetched n], at most three.  From the fifth call on, the events
    handed out are exactly five and the fetches exactly three, however
    often the consumer calls again. *)
Theorem select_limit_5_page_size_2 (f : Filters.t)
    (ups : list (gmap string json)) (evs : list Event) (w w0 : World)
    (it : Iterator) (n : nat) :
  select to_timestring utcnow quote f false (Some 5) 2 None w = (Ok it, w0) →
  (5 ≤ List.length ups)%nat →
  Forall2 (fun u e => from_json required u = Ok e) ups evs →
  (∀ h p, (1 ≤ p ≤ 3)%nat →
     respond h (GET (base_query it ++ page_param ++ pretty p))
     = page_json (page_of 2 p ups)) →
  ∃ it' w',
    pull respond required conn n it w0
    = (Ok (take n (take 5 (set_c8y (Some conn) <$> evs)), it'), w')
    ∧ requests w'
      = (requests w0
         ++ ((fun p => GET (base_query it ++ page_param ++ pretty p))
               <$> seq 1 (pages_fetched n)))%list
    ∧ (fetches w' ≤ fetches w0 + 3)%nat
    ∧ ((5 ≤ n)%nat →
       List.length (take n (take 5 (set_c8y (Some conn) <$> evs))) = 5%nat
       ∧ fetches w' = (fetches w0 + 3)%nat).
Proof.
  intros Hsel Hlen Hall Hresp.
  unfold select, mbind, M_bind, bind in Hsel.
  rewrite _build_base_query_run in Hsel. cbn in Hsel.
  injection Hsel as <- <-. cbn [base_query] in Hresp |- *.
  set (bq := render_query _) in *.
  set (w0 := after_query f w).
  destruct Hall as [|u1 e1 ? ? H1 Hall]; [cbn in Hlen; lia |].
  destruct Hall as [|u2 e2 ? ? H2 Hall]; [cbn in Hlen; lia |].
  destruct Hall as [|u3 e3 ? ? H3 Hall]; [cbn in Hlen; lia |].
  destruct Hall as [|u4 e4 ? ? H4 Hall]; [cbn in Hlen; lia |].
  destruct Hall as [|u5 e5 rest erest H5 Hall]; [cbn in Hlen; lia |].
  clear Hlen.
  set (inj := set_c8y (Some conn)).
  set (tail := inj <$> take 1 erest).
  assert (P1 : parse_all required conn
                 (JObj <$> page_of 2 1 (u1 :: u2 :: u3 :: u4 :: u5 :: rest))
               = Ok [inj e1; inj e2]).
  { apply (parse_all_Forall2 required conn [u1; u2] [e1; e2]).
    by repeat constructor. }
  assert (P2 : parse_all required conn
                 (JObj <$> page_of 2 2 (u1 :: u2 :: u3 :: u4 :: u5 :: rest))
               = Ok [inj e3; inj e4]).
  { apply (parse_all_Forall2 required conn [u3; u4] [e3; e4]).
    by repeat constructor. }
  assert (P3 : parse_all required conn
                 (JObj <$> page_of 2 3 (u1 :: u2 :: u3 :: u4 :: u5 :: rest))
               = Ok (inj e5 :: tail)).
  { apply (parse_all_Forall2 required conn (u5 :: take 1 rest)
             (e5 :: take 1 erest)).
    constructor; [done | by apply Forall2_take]. }
  set (st := fun page num pend read =>
         {| base_query := bq; page_number := None; limit := Some 5;
            current_page := page; num_results := num; pending := pend;
            pages_read := read; exhausted := false |}).
  set (g := fun p : nat => GET (bq ++ page_param ++ pretty p)).
  assert (N1 : next respond required conn (st 1 0 [] 0)%nat w0
               = (Ok (Some (inj e1), st 2 1 [inj e2] 1)%nat, sent (g 1%nat) w0)).
  { apply (next_fetch respond required conn (st 1 0 [] 0)%nat w0
             (page_of 2 1 (u1 :: u2 :: u3 :: u4 :: u5 :: rest)));
      try reflexivity; [apply Hresp; lia | exact P1]. }
  assert (N2 : ∀ v, next respond required conn (st 2 1 [inj e2] 1)%nat v
               = (Ok (Some (inj e2), st 2 2 [] 1)%nat, v)).
  { intros v. by apply (next_pending respond required conn
                          (st 2 1 [inj e2] 1)%nat v). }
  assert (N3 : ∀ v, next respond required conn (st 2 2 [] 1)%nat v
               = (Ok (Some (inj e3), st 3 3 [inj e4] 2)%nat, sent (g 2%nat) v)).
  { intros v.
    apply (next_fetch respond required conn (st 2 2 [] 1)%nat v
             (page_of 2 2 (u1 :: u2 :: u3 :: u4 :: u5 :: rest)));
      try reflexivity; [apply Hresp; lia | exact P2]. }
  assert (N4 : ∀ v, next respond required conn (st 3 3 [inj e4] 2)%nat v
               = (Ok (Some (inj e4), st 3 4 [] 2)%nat, v)).
  { intros v. by apply (next_pending respond required conn
                          (st 3 3 [inj e4] 2)%nat v). }
  assert (N5 : ∀ v, next respond required conn (st 3 4 [] 2)%nat v
               = (Ok (Some (inj e5), st 4 5 tail 3)%nat, sent (g 3%nat) v)).
  { intros v.
    apply (next_fetch respond required conn (st 3 4 [] 2)%nat v
             (page_of 2 3 (u1 :: u2 :: u3 :: u4 :: u5 :: rest)));
      try reflexivity; [apply Hresp; lia | exact P3]. }
  assert (N6 : ∀ v, next respond required conn (st 4 5 tail 3)%nat v
               = (Ok (None, stop (st 4 5 tail 3)%nat), v)).
  { intros v. by apply next_limit. }
  assert (N7 : ∀ m v, pull respond required conn m
                        (stop (st 4 5 tail 3)%nat) v
                      = (Ok ([], stop (st 4 5 tail 3)%nat), v)).
  { intros m v. by apply pull_exhausted. }
  change {| base_query := bq; page_number := None; limit := Some 5;
            current_page := 1; num_results := 0; pending := [];
            pages_read := 0; exhausted := false |}
    with (st 1 0 [] 0)%nat.
  do 6 (destruct n as [|n];
        [ repeat (rewrite pull_S;
                  rewrite ?N1, ?N2, ?N3, ?N4, ?N5, ?N6; cbn [fst snd]);
          cbn [pull ret]; do 2 eexists;
          split; [reflexivity |]; cbn [requests sent]; unfold g;
          rewrite ?fetches_sent_GET;
          split; [by rewrite <- ?app_assoc, ?app_nil_r |];
          split; [lia |];
          intros; first [lia | split; [reflexivity | lia]] |]).
  repeat (rewrite pull_S; rewrite ?N1, ?N2, ?N3, ?N4, ?N5, ?N6;
          cbn [fst snd]).
  rewrite N7. do 2 eexists.
  split; [reflexivity |]. cbn [requests sent]. unfold g.
  rewrite !fetches_sent_GET.
  split; [by rewrite <- ?app_assoc |].
  split; [lia | intros _; split; [reflexivity | lia]].
Qed.

End Select.


Lemma select_limit_5_page_size_2_witness :
  ∃ it' w',
    pull sample_server [] (Connection "https://tenant.cumulocity.com") 7
      sample_iterator empty_world
    = (Ok (take 7 (take 5 (set_c8y
                             (Some (Connection "https://tenant.cumulocity.com"))
                             <$> sample_events)), it'), w')
    ∧ requests w'
      = (requests empty_world
         ++ ((fun p => GET (base_query sample_iterator ++ page_param
                                ++ pretty p))
               <$> seq 1 (pages_fetched 7)))%list
    ∧ (fetches w' ≤ fetches empty_world + 3)%nat
    ∧ ((5 ≤ 7)%nat →
       List.length
         (take 7 (take 5 (set_c8y
                            (Some (Connection "https://tenant.cumulocity.com"))
                            <$> sample_events))) = 5%nat
       ∧ fetches w' = (fetches empty_world + 3)%nat).
Proof.
  apply (select_limit_5_page_size_2 sample_server (fun _ => "")
           (fun _ => 0%Z) (fun v => v) [] (Connection "https://tenant.cumulocity.com")
           Filters.none sample_upstream sample_events empty_world).
  - reflexivity.
  - cbn. lia.
  - repeat constructor.
  - intros h p Hp.
    destruct p as [|[|[|[|p]]]]; try lia; reflexivity.
Defined.

(** ** Utilities *)

(** *** Strings *)

Lemma prefix_split (s1 s2 : string) :
  String.prefix s1 s2 = true ↔ ∃ post, s2 = s1 ++ post.
Proof.
  revert s2. induction s1 as [|a s1 IH]; intros s2.
  - destruct s2; cbn; split; eauto.
  - destruct s2 as [|b s2]; cbn.
    + split; [discriminate | intros [? ?]; discriminate].
    + destruct (ascii_dec a b) as [-> | Hne].
      * rewrite IH. split; intros [post H]; exists post;
          rewrite ?string_app_cons in *; congruence.
      * split; [discriminate |].
        intros [post H]. rewrite string_app_cons in H. congruence.
Qed.

(** An index found is not before the start. *)
Lemma index_ge (n m : nat) (s1 s2 : string) :
  String.index n s1 s2 = Some m → (n ≤ m)%nat.
Proof.
  revert n m. induction s2 as [|b s2 IH]; intros n m.
  - destruct n; cbn; [destruct s1; intros [= <-]; lia | discriminate].
  - destruct n; cbn; [lia |].
    destruct (String.index n s1 s2) eqn:E; [|discriminate].
    intros [= <-]. apply IH in E. lia.
Qed.

(** [sub] occurs at the index found. *)
Lemma index_split (n m : nat) (s1 s2 : string) :
  String.index n s1 s2 = Some m →
  ∃ pre post, s2 = pre ++ s1 ++ post ∧ String.length pre = m.
Proof.
  revert n m. induction s2 as [|b s2 IH]; intros n m.
  - destruct n; cbn; [|discriminate].
    destruct s1; [|discriminate]. intros [= <-]. by exists "", "".
  - destruct n; cbn [String.index].
    + destruct (String.prefix s1 (String b s2)) eqn:Hp.
      * intros [= <-]. apply prefix_split in Hp as [post Hp].
        by exists "", post.
      * destruct (String.index 0 s1 s2) eqn:E; [|discriminate].
        intros [= <-]. destruct (IH _ _ E) as (pre & post & -> & <-).
        by exists (String b pre), post.
    + destruct (String.index n s1 s2) eqn:E; [|discriminate].
      intros [= <-]. destruct (IH _ _ E) as (pre & post & -> & <-).
      by exists (String b pre), post.
Qed.

(** Where [sub] occurs, [index] finds an occurrence. *)
Lemma index_occurs (pre s1 post : string) :
  is_Some (String.index 0 s1 (pre ++ s1 ++ post)).
Proof.
  induction pre as [|a pre IH].
  - rewrite string_app_nil. destruct (s1 ++ post) as [|a s] eqn:E.
    + destruct s1; [cbn; eauto | discriminate].
    + assert (Hp : String.prefix s1 (String a s) = true)
        by (apply prefix_split; eauto).
      cbn [String.index]. rewrite Hp. eauto.
  - rewrite string_app_cons. cbn [String.index].
    destruct (String.prefix s1 (String a (pre ++ s1 ++ post))); [eauto |].
    destruct IH as [m ->]. eauto.
Qed.

Lemma str_in_spec (sub s : string) :
  str_in sub s = true ↔ ∃ pre post, s = pre ++ sub ++ post.
Proof.
  unfold str_in. split.
  - destruct (String.index 0 sub s) eqn:E; [|discriminate]. intros _.
    destruct (index_split _ _ _ _ E) as (pre & post & ? & _). eauto.
  - intros (pre & post & ->).
    by destruct (index_occurs pre sub post) as [m ->].
Qed.

(** X1: a name is among [c8y_keys] exactly when it is the name of a
    variable of the environment and holds [C8Y_] somewhere, at its start
    or not. *)
Theorem c8y_keys_spec (environ : gmap string string) (name : string) :
  name ∈ c8y_keys environ ↔
  is_Some (environ !! name) ∧ ∃ pre post, name = pre ++ "C8Y_" ++ post.
Proof.
  unfold c8y_keys. rewrite elem_of_filter, elem_of_dom, str_in_spec. tauto.
Qed.

Lemma string_app_nil_r (s : string) : s ++ "" = s.
Proof.
  induction s as [|a s IH]; [reflexivity |].
  by rewrite string_app_cons, IH.
Qed.

(** Nothing is found later where nothing is found from the start. *)
Lemma index_None_later (n : nat) (sub s : string) :
  String.index 0 sub s = None → String.index n sub s = None.
Proof.
  revert n. induction s as [|b s IH]; intros n H.
  - destruct n; [done | reflexivity].
  - destruct n; [done |]. cbn [String.index] in *.
    destruct (String.prefix sub (String b s)); [discriminate |].
    destruct (String.index 0 sub s) eqn:E; [discriminate |].
    by rewrite IH.
Qed.

(** A search which starts behind a prefix searches the rest. *)
Lemma index_skip (p t sub : string) (n : nat) :
  String.index (String.length p + n) sub (p ++ t)
  = (fun m => (String.length p + m)%nat) <$> String.index n sub t.
Proof.
  induction p as [|a p IH].
  - rewrite string_app_nil. cbn. by destruct (String.index n sub t).
  - rewrite string_app_cons. cbn [String.length Nat.add String.index].
    rewrite IH. by destruct (String.index n sub t).
Qed.

(** The first occurrence of a character behind a text without it. *)
Lemma index_char_behind (c : ascii) (host rest : string) (n : nat) :
  (n ≤ String.length host)%nat →
  String.index 0 (String c "") host = None →
  String.index n (String c "") (host ++ String c rest)
  = Some (String.length host).
Proof.
  revert n. induction host as [|a host IH]; intros n Hn Hnone.
  - cbn in Hn. assert (n = 0%nat) as -> by lia.
    rewrite string_app_nil. cbn.
    destruct (ascii_dec c c); [|done]. by destruct rest.
  - rewrite string_app_cons. cbn [String.index String.length] in *.
    assert (Hp : ∀ x, String.prefix (String c "") (String a x) = false).
    { intros x. cbn in Hnone |- *. destruct (ascii_dec c a); [|done].
      by destruct host. }
    rewrite Hp in Hnone.
    destruct (String.index 0 (String c "") host) eqn:E; [discriminate |].
    destruct n.
    + rewrite Hp, (IH 0%nat); [done | lia | done].
    + rewrite (IH n); [done | lia | done].
Qed.

Lemma prefix_nil (s : string) : String.prefix "" s = true.
Proof. by destruct s. Qed.

Lemma prefix_cons (a b : ascii) (s1 s2 : string) :
  String.prefix (String a s1) (String b s2)
  = if ascii_dec a b then String.prefix s1 s2 else false.
Proof. reflexivity. Qed.

(** The separator behind a scheme without a colon is the first one. *)
Lemma index_separator_behind (scheme rest : string) :
  String.index 0 ":" scheme = None →
  String.index 0 "://" (scheme ++ "://" ++ rest) = Some (String.length scheme).
Proof.
  induction scheme as [|a scheme IH]; intros Hnone.
  - rewrite string_app_nil.
    assert (Hp : String.prefix "://" ("://" ++ rest) = true)
      by (apply prefix_split; eauto).
    change ("://" ++ rest) with (String ":" ("//" ++ rest)) in *.
    cbn [String.index]. by rewrite Hp.
  - rewrite string_app_cons. cbn [String.index String.length] in *.
    assert (Hp : ∀ x, String.prefix ":" (String a x) = false
                      ∧ String.prefix "://" (String a x) = false).
    { intros x. change ":" with (String ":" "") in *.
      change "://" with (String ":" "//").
      rewrite !prefix_cons in *. destruct (ascii_dec ":" a); [|by split].
      by rewrite prefix_nil in Hnone. }
    rewrite (proj1 (Hp _)) in Hnone. rewrite (proj2 (Hp _)).
    destruct (String.index 0 ":" scheme) eqn:E; [discriminate |].
    by rewrite IH.
Qed.

(** A text without slash holds no separator. *)
Lemma no_slash_no_separator (host : string) :
  String.index 0 "/" host = None → String.index 0 "://" host = None.
Proof.
  intros Hnone. destruct (String.index 0 "://" host) eqn:E; [|done].
  destruct (index_split _ _ _ _ E) as (pre & post & -> & _).
  assert (Hs : is_Some (String.index 0 "/" ((pre ++ ":") ++ "/" ++ ("/" ++ post))))
    by apply index_occurs.
  rewrite string_app_assoc in Hs.
  change (":" ++ "/" ++ "/" ++ post) with ("://" ++ post) in Hs.
  rewrite Hnone in Hs. by destruct Hs.
Qed.

Lemma slice_to_0 (s : string) : slice_to s 0 = "".
Proof. by destruct s. Qed.

Lemma slice_to_S (b : ascii) (s : string) (j : nat) :
  slice_to (String b s) (S j) = String b (slice_to s j).
Proof. reflexivity. Qed.

(** A cut is a prefix. *)
Lemma prefix_slice_to (s : string) (j : nat) :
  String.prefix (slice_to s j) s = true.
Proof.
  revert j. induction s as [|b s IH]; intros j.
  - by destruct j.
  - destruct j; [by rewrite slice_to_0 |].
    rewrite slice_to_S. cbn. destruct (ascii_dec b b); [apply IH | done].
Qed.

Lemma prefix_refl (s : string) : String.prefix s s = true.
Proof. apply prefix_split. exists "". by rewrite string_app_nil_r. Qed.

(** What starts a cut starts the text, and what starts the text starts
    every cut which is long enough. *)
Lemma prefix_of_slice (sub s : string) (j : nat) :
  String.prefix sub (slice_to s j) = true → String.prefix sub s = true.
Proof.
  revert s j. induction sub as [|a sub IH]; intros s j.
  - intros _. apply prefix_nil.
  - destruct s as [|b s]; [by destruct j |].
    destruct j; [by rewrite slice_to_0 |].
    rewrite slice_to_S. cbn. destruct (ascii_dec a b); [apply IH | done].
Qed.

Lemma prefix_in_slice (sub s : string) (j : nat) :
  String.prefix sub s = true → (String.length sub ≤ j)%nat →
  String.prefix sub (slice_to s j) = true.
Proof.
  revert s j. induction sub as [|a sub IH]; intros s j.
  - intros _ _. apply prefix_nil.
  - destruct s as [|b s]; [done |].
    destruct j; [cbn; lia |]. rewrite slice_to_S. cbn.
    destruct (ascii_dec a b); [|done]. intros H Hl. apply IH; [done | lia].
Qed.

(** The first occurrence stays the first one in a cut which holds it. *)
Lemma index_in_slice (n i j : nat) (sub s : string) :
  String.index n sub s = Some i → (i + String.length sub ≤ j)%nat →
  String.index n sub (slice_to s j) = Some i.
Proof.
  revert n i j. induction s as [|b s IH]; intros n i j.
  - destruct n; cbn; [|discriminate]. destruct sub; [|discriminate].
    intros [= <-] _. by destruct j.
  - destruct n; cbn [String.index].
    + destruct (String.prefix sub (String b s)) eqn:Hp.
      * intros [= <-] Hl. cbn in Hl. destruct j.
        -- destruct sub; [by rewrite slice_to_0 | cbn in Hl; lia].
        -- rewrite slice_to_S. cbn [String.index].
           rewrite <- slice_to_S. by rewrite prefix_in_slice.
      * destruct (String.index 0 sub s) eqn:E; [|discriminate].
        intros [= <-] Hl. destruct j; [lia |].
        rewrite slice_to_S. cbn [String.index]. rewrite <- slice_to_S.
        destruct (String.prefix sub (slice_to (String b s) (S j))) eqn:Hq.
        { apply prefix_of_slice in Hq. congruence. }
        rewrite (IH _ _ _ E); [done | lia].
    + destruct (String.index n sub s) eqn:E; [|discriminate].
      intros [= <-] Hl. destruct j; [lia |].
      rewrite slice_to_S. cbn [String.index].
      rewrite (IH _ _ _ E); [done | lia].
Qed.

(** A text which is cut at the first occurrence of a character does not
    hold it from the start of the search on. *)
Lemma index_char_cut (c : ascii) (n j : nat) (s : string) :
  String.index n (String c "") s = Some j →
  String.index n (String c "") (slice_to s j) = None.
Proof.
  revert n j. induction s as [|b s IH]; intros n j.
  - destruct n; discriminate.
  - destruct n; cbn [String.index].
    + destruct (String.prefix (String c "") (String b s)) eqn:Hp.
      * intros [= <-]. by rewrite slice_to_0.
      * destruct (String.index 0 (String c "") s) eqn:E; [|discriminate].
        intros [= <-]. rewrite slice_to_S. cbn [String.index].
        assert (Hq : String.prefix (String c "") (String b (slice_to s n)) = false).
        { cbn in Hp |- *. destruct (ascii_dec c b); [|done]. by destruct s. }
        rewrite Hq. by rewrite (IH _ _ E).
    + destruct (String.index n (String c "") s) eqn:E; [|discriminate].
      intros [= <-]. rewrite slice_to_S. cbn [String.index].
      by rewrite (IH _ _ E).
Qed.

Lemma find_Some (s sub : string) (n i : nat) :
  String.index n sub s = Some i →
  find s sub (Z.of_nat n) = Z.of_nat i ∧ (Z.of_nat i =? -1)%Z = false.
Proof.
  intros H. unfold find. rewrite Nat2Z.id, H. split; [done | apply Z.eqb_neq; lia].
Qed.

Lemma find_None (s sub : string) (n : nat) :
  String.index n sub s = None → find s sub (Z.of_nat n) = (-1)%Z.
Proof. intros H. unfold find. by rewrite Nat2Z.id, H. Qed.

(** [validate_base_url], case by case. *)
Lemma validate_base_url_unfold (url : string) :
  validate_base_url url =
  match String.index 0 "://" url with
  | Some i =>
      match String.index (i + 3) "/" url with
      | Some j => slice_to url j
      | None => url
      end
  | None =>
      "https://" ++ match String.index 2 "/" url with
                    | Some j => slice_to url j
                    | None => url
                    end
  end.
Proof.
  unfold validate_base_url.
  change 0%Z with (Z.of_nat 0).
  destruct (String.index 0 "://" url) as [i|] eqn:Hi.
  - destruct (find_Some _ _ 0 _ Hi) as [-> ->].
    replace (Z.of_nat i + 3)%Z with (Z.of_nat (i + 3)) by lia.
    destruct (String.index (i + 3) "/" url) as [j|] eqn:Hj.
    + destruct (find_Some _ _ _ _ Hj) as [-> ->]. by rewrite Nat2Z.id.
    + by rewrite (find_None _ _ _ Hj).
  - rewrite (find_None _ _ 0 Hi).
    change (-1 + 3)%Z with (Z.of_nat 2).
    destruct (String.index 2 "/" url) as [j|] eqn:Hj.
    + destruct (find_Some _ _ _ _ Hj) as [-> ->]. by rewrite Nat2Z.id.
    + by rewrite (find_None _ _ _ Hj).
Qed.

(** What [validate_base_url] makes of a URL which holds a separator. *)
Lemma validate_base_url_separator (url : string) (i : nat) :
  String.index 0 "://" url = Some i →
  String.prefix (validate_base_url url) url = true
  ∧ String.index 0 "://" (validate_base_url url) = Some i
  ∧ String.index (i + 3) "/" (validate_base_url url) = None.
Proof.
  intros Hi. rewrite validate_base_url_unfold, Hi.
  destruct (String.index (i + 3) "/" url) as [j|] eqn:Hj.
  - pose proof (index_ge _ _ _ _ Hj) as Hge.
    split; [apply prefix_slice_to |].
    split; [by apply index_in_slice | by apply (index_char_cut "/")].
  - split; [apply prefix_refl | done].
Qed.

(** X2: of a URL which holds a scheme separator, [validate_base_url]
    returns a prefix, which still holds the separator at its place and
    holds no slash behind it: nothing is put in front, and the path is
    cut off with its slash. *)
Theorem validate_base_url_drops_path (url : string) (i : nat) :
  String.index 0 "://" url = Some i →
  String.prefix (validate_base_url url) url = true
  ∧ String.index 0 "://" (validate_base_url url) = Some i
  ∧ String.index (i + 3) "/" (validate_base_url url) = None.
Proof. apply validate_base_url_separator. Qed.

(** X3: on a URL which holds a scheme separator, [validate_base_url]
    changes nothing when it is applied a second time. *)
Theorem validate_base_url_idempotent (url : string) (i : nat) :
  String.index 0 "://" url = Some i →
  validate_base_url (validate_base_url url) = validate_base_url url.
Proof.
  intros Hi. destruct (validate_base_url_separator url i Hi) as (_ & H1 & H2).
  by rewrite (validate_base_url_unfold (validate_base_url url)), H1, H2.
Qed.

(** X4: for a scheme without colon and a host (with or without port)
    without slash, [validate_base_url] returns scheme, separator and
    host, whether a path follows the host or not, and whatever the path
    is. *)
Theorem validate_base_url_with_scheme (scheme host path : string) :
  String.index 0 ":" scheme = None →
  String.index 0 "/" host = None →
  validate_base_url (scheme ++ "://" ++ host) = scheme ++ "://" ++ host
  ∧ validate_base_url (scheme ++ "://" ++ host ++ "/" ++ path)
    = scheme ++ "://" ++ host.
Proof.
  intros Hs Hh.
  assert (Hlen : String.length (scheme ++ "://") = (String.length scheme + 3)%nat)
    by (rewrite string_length_app; reflexivity).
  split.
  - rewrite validate_base_url_unfold, index_separator_behind by done.
    rewrite <- Hlen, <- (Nat.add_0_r (String.length (scheme ++ "://"))).
    rewrite <- string_app_assoc, index_skip, Hh. reflexivity.
  - rewrite validate_base_url_unfold, index_separator_behind by done.
    rewrite <- Hlen, <- (Nat.add_0_r (String.length (scheme ++ "://"))).
    rewrite <- (string_app_assoc scheme), index_skip.
    change ("/" ++ path) with (String "/" path).
    rewrite (index_char_behind "/" host path 0) by (done || lia). cbn [fmap option_fmap option_map].
    rewrite <- string_length_app, <- !string_app_assoc.
    apply slice_to_app.
Qed.

(** X5: a host without slash and without scheme is given the scheme
    [https]; so is a host of at least two characters which a path
    follows, while the path is cut off, provided that the path holds no
    scheme separator. *)
Theorem validate_base_url_without_scheme (host path : string) :
  String.index 0 "/" host = None →
  validate_base_url host = "https://" ++ host
  ∧ ((2 ≤ String.length host)%nat →
     String.index 0 "://" (host ++ "/" ++ path) = None →
     validate_base_url (host ++ "/" ++ path) = "https://" ++ host).
Proof.
  intros Hh. split.
  - rewrite validate_base_url_unfold, no_slash_no_separator by done.
    by rewrite index_None_later.
  - intros Hlen Hnone. rewrite validate_base_url_unfold, Hnone.
    change ("/" ++ path) with (String "/" path).
    rewrite (index_char_behind "/" host path 2) by done.
    by rewrite slice_to_app.
Qed.

(** X6: a URL without scheme separator is given the scheme [https], in
    front of a prefix of the URL which holds no slash from its third
    character on. *)
Theorem validate_base_url_adds_scheme (url : string) :
  String.index 0 "://" url = None →
  ∃ rest,
    validate_base_url url = "https://" ++ rest
    ∧ String.prefix rest url = true
    ∧ String.index 2 "/" rest = None.
Proof.
  intros Hnone. rewrite validate_base_url_unfold, Hnone.
  destruct (String.index 2 "/" url) as [j|] eqn:Hj.
  - exists (slice_to url j). split; [done |].
    split; [apply prefix_slice_to | by apply (index_char_cut "/")].
  - exists url. split; [done |]. split; [apply prefix_refl | done].
Qed.

Lemma validate_base_url_with_scheme_witness :
  validate_base_url ("http" ++ "://" ++ "tenant.cumulocity.com:8443")
  = "http" ++ "://" ++ "tenant.cumulocity.com:8443"
  ∧ validate_base_url
      ("http" ++ "://" ++ "tenant.cumulocity.com:8443" ++ "/"
       ++ "inventory/managedObjects")
    = "http" ++ "://" ++ "tenant.cumulocity.com:8443".
Proof.
  apply (validate_base_url_with_scheme "http" "tenant.cumulocity.com:8443"
           "inventory/managedObjects").
  - vm_compute. reflexivity.
  - vm_compute. reflexivity.
Defined.

Lemma validate_base_url_without_scheme_witness :
  validate_base_url "tenant.cumulocity.com" = "https://tenant.cumulocity.com"
  ∧ validate_base_url "tenant.cumulocity.com/inventory"
    = "https://tenant.cumulocity.com".
Proof.
  destruct (validate_base_url_without_scheme "tenant.cumulocity.com"
              "inventory") as [H1 H2].
  - vm_compute. reflexivity.
  - split; [exact H1 |]. apply H2.
    + vm_compute. lia.
    + vm_compute. reflexivity.
Defined.

Lemma validate_base_url_drops_path_witness :
  String.prefix
    (validate_base_url "https://tenant.cumulocity.com/inventory/managedObjects")
    "https://tenant.cumulocity.com/inventory/managedObjects" = true
  ∧ String.index 0 "://"
      (validate_base_url
         "https://tenant.cumulocity.com/inventory/managedObjects") = Some 5%nat
  ∧ String.index (5 + 3) "/"
      (validate_base_url
         "https://tenant.cumulocity.com/inventory/managedObjects") = None.
Proof.
  apply (validate_base_url_drops_path
           "https://tenant.cumulocity.com/inventory/managedObjects" 5).
  vm_compute. reflexivity.
Defined.

Lemma validate_base_url_idempotent_witness :
  validate_base_url
    (validate_base_url "https://tenant.cumulocity.com/inventory/managedObjects")
  = validate_base_url "https://tenant.cumulocity.com/inventory/managedObjects".
Proof.
  apply (validate_base_url_idempotent
           "https://tenant.cumulocity.com/inventory/managedObjects" 5).
  vm_compute. reflexivity.
Defined.

Lemma validate_base_url_adds_scheme_witness :
  ∃ rest,
    validate_base_url "tenant.cumulocity.com:8443/inventory"
    = "https://" ++ rest
    ∧ String.prefix rest "tenant.cumulocity.com:8443/inventory" = true
    ∧ String.index 2 "/" rest = None.
Proof.
  apply (validate_base_url_adds_scheme "tenant.cumulocity.com:8443/inventory").
  vm_compute. reflexivity.
Defined.

(** The names which [c8y_keys] finds in the sample environment: a name
    which holds [C8Y_] in its middle is among them. *)
Example c8y_keys_sample :
  c8y_keys sample_environ = {[ "C8Y_BASEURL"; "C8Y_TENANT"; "MY_C8Y_USER" ]}.
Proof. vm_compute. reflexivity. Qed.

(** Without a scheme, a slash is looked for from the third character
    on: a host of one character keeps its path, and a URL which starts
    with a slash is not brought to a fixed point by one application. *)
Example validate_base_url_short_host :
  validate_base_url "a/b" = "https://a/b"
  ∧ validate_base_url "/abc" = "https:///abc"
  ∧ validate_base_url (validate_base_url "/abc") = "https://".
Proof. repeat split; vm_compute; reflexivity. Qed.

(** ** The JSON mapping of an Event, continued *)

(** Where an entry of the document of the typed attributes comes from:
    an attribute which is mapped to the key, included, not excluded and
    not [None]. *)
Lemma format_fields_acc (mapping : list (string * string)) (o : Event)
    (include : option (gset string)) (exclude : gset string)
    (acc : gmap string json) (k : string) (v : json) :
  foldl (fun acc fk =>
           if (match include with
               | None => true
               | Some inc => bool_decide ((fk.1) ∈ inc)
               end)
              && negb (bool_decide (fk.1 ∈ exclude))
              && negb (is_none (getattr fk.1 o))
           then <[ fk.2 := getattr fk.1 o ]> acc
           else acc) acc mapping !! k = Some v →
  acc !! k = Some v
  ∨ ∃ a, (a, k) ∈ mapping ∧ a ∉ exclude
         ∧ (∀ inc, include = Some inc → a ∈ inc)
         ∧ v = getattr a o ∧ is_none v = false.
Proof.
  revert acc. induction mapping as [|[a k'] rest IH]; intros acc; cbn [foldl].
  - by left.
  - intros H. apply IH in H as [H | (a' & Hin & ?)].
    + cbn [fst snd] in H.
      destruct (match include with
                | None => true
                | Some inc => bool_decide (a ∈ inc)
                end) eqn:Hinc; cbn [andb] in H; [|by left].
      case_bool_decide as Hexc; cbn [negb andb] in H; [by left |].
      destruct (is_none (getattr a o)) eqn:Hnone; cbn [negb] in H; [by left |].
      destruct (decide (k' = k)) as [-> | Hne].
      * rewrite lookup_insert_eq in H. injection H as <-. right.
        exists a. split; [apply elem_of_cons; by left |].
        split; [done |]. split; [|done].
        intros inc ->. by apply bool_decide_eq_true in Hinc.
      * rewrite lookup_insert_ne in H by done. by left.
    + right. exists a'. split; [apply elem_of_cons; by right | done].
Qed.

Lemma lookup_format_fields (o : Event) (include : option (gset string))
    (exclude : gset string) (k : string) (v : json) :
  format_fields _parser_mapping o include exclude !! k = Some v →
  ∃ a, (a, k) ∈ _parser_mapping ∧ a ∉ exclude
       ∧ (∀ inc, include = Some inc → a ∈ inc)
       ∧ v = getattr a o ∧ is_none v = false.
Proof.
  intros H. apply format_fields_acc in H as [H | H]; [|done].
  by rewrite lookup_empty in H.
Qed.

(** The attribute behind a key of the declared mapping. *)
Lemma _parser_mapping_key (a k : string) :
  (a, k) ∈ _parser_mapping →
  (a = "type" ∧ k = "type") ∨ (a = "time" ∧ k = "time")
  ∨ (a = "_u_text" ∧ k = "text")
  ∨ (a = "creation_time" ∧ k = "creationTime")
  ∨ (a = "updated_time" ∧ k = "lastUpdated").
Proof.
  unfold _parser_mapping. rewrite !elem_of_cons, elem_of_nil.
  intros [H | [H | [H | [H | [H | []]]]]]; injection H as -> ->; tauto.
Qed.

(** The document of the typed attributes never holds the creation time
    when the attribute is excluded, and never holds a key [source]. *)
Lemma format_fields_creation_time (o : Event)
    (include : option (gset string)) :
  format_fields _parser_mapping o include {[ "creation_time" ]}
    !! "creationTime" = None.
Proof.
  destruct (format_fields _ _ _ _ !! "creationTime") as [v|] eqn:E; [|done].
  apply lookup_format_fields in E as (a & Hin & Hexc & _).
  apply _parser_mapping_key in Hin.
  exfalso. apply Hexc. apply elem_of_singleton.
  destruct Hin as [[_ ?] | [[_ ?] | [[_ ?] | [[? _] | [_ ?]]]]];
    done || discriminate.
Qed.

Lemma format_fields_source (o : Event) (include : option (gset string))
    (exclude : gset string) :
  format_fields _parser_mapping o include exclude !! "source" = None.
Proof.
  destruct (format_fields _ _ _ _ !! "source") as [v|] eqn:E; [|done].
  apply lookup_format_fields in E as (a & Hin & _).
  apply _parser_mapping_key in Hin.
  destruct Hin as [[_ ?] | [[_ ?] | [[_ ?] | [[_ ?] | [_ ?]]]]]; discriminate.
Qed.

(** The fragments which [_to_json] writes are fragments of the object. *)
Lemma lookup_to_json_fragments (x : Event) (only_updated : bool) (k : string) :
  fragments x !! k = None →
  (if only_updated
   then filter (fun kv : string * json => fst kv ∈ _updated_fragments x)
          (fragments x)
   else fragments x) !! k = None.
Proof.
  intros H. destruct only_updated; [|done].
  apply map_lookup_filter_None. by left.
Qed.

Section JsonMore.

Variable required : list string.

(** X7: for a document which holds every key the parser requires,
    [Event.from_json] fails with [KeyError] for [source] when the
    document has no key [source], with [TypeError] when the value of
    [source] is not an object, and with [KeyError] for [id] when that
    object has no key [id]; otherwise it succeeds, and the source of the
    event is the value of [id], whatever it is. *)
Theorem from_json_source_errors (j : gmap string json) :
  Forall (fun k => is_Some (j !! k)) required →
  (j !! "source" = None → from_json required j = Raise (KeyError "source"))
  ∧ (∀ v, j !! "source" = Some v → (∀ m, v ≠ JObj m) →
       from_json required j = Raise TypeError)
  ∧ (∀ m, j !! "source" = Some (JObj m) → m !! "id" = None →
       from_json required j = Raise (KeyError "id"))
  ∧ (∀ m i, j !! "source" = Some (JObj m) → m !! "id" = Some i →
       ∃ e, from_json required j = Ok e ∧ source e = i).
Proof.
  intros Hreq. apply missing_key_None in Hreq.
  rewrite from_json_unfold, Hreq.
  split; [|split; [|split]].
  - by intros ->.
  - intros v -> Hv. destruct v; try done. by destruct (Hv m).
  - intros m -> Hm. cbn. unfold getitem. by rewrite Hm.
  - intros m i -> Hm. cbn. unfold getitem. rewrite Hm. eauto.
Qed.

(** X8: the document which [Event.to_json] builds, in full or as a
    diff, never holds the key [creationTime], unless the event has a
    custom fragment of that name. *)
Theorem to_json_excludes_creation_time (x : Event) (only_updated : bool) :
  fragments x !! "creationTime" = None →
  to_json x only_updated !! "creationTime" = None.
Proof.
  intros Hf.
  assert (H : _to_json x only_updated {[ "creation_time" ]}
              !! "creationTime" = None).
  { unfold _to_json. apply lookup_union_None. split.
    - by apply lookup_to_json_fragments.
    - apply format_fields_creation_time. }
  unfold to_json.
  destruct (negb only_updated && truthy (source x)); [|done].
  by rewrite lookup_insert_ne.
Qed.

(** X9: the full document of an event whose source is set holds it as
    an object with the key [id].  For an event without a custom fragment
    named [source], the full document of an event whose source is
    [None] or empty has no key [source], and the diff document never has
    one: the source is not part of an update. *)
Theorem to_json_source_entry (x : Event) :
  (truthy (source x) = true →
   to_json x false !! "source" = Some (JObj {[ "id" := source x ]}))
  ∧ (fragments x !! "source" = None →
     (truthy (source x) = false → to_json x false !! "source" = None)
     ∧ to_json x true !! "source" = None).
Proof.
  split.
  - intros Hs. rewrite to_json_full by done. apply lookup_insert_eq.
  - intros Hf.
    assert (H : ∀ b, _to_json x b {[ "creation_time" ]} !! "source" = None).
    { intros b. unfold _to_json. apply lookup_union_None. split.
      - by apply lookup_to_json_fragments.
      - apply format_fields_source. }
    split.
    + intros Hs. unfold to_json. rewrite Hs. cbn [negb andb]. apply H.
    + unfold to_json. cbn [negb andb]. apply H.
Qed.

End JsonMore.

Lemma from_json_source_errors_witness :
  (sample_json !! "source" = None →
   from_json [ "type"; "time" ] sample_json = Raise (KeyError "source"))
  ∧ (∀ v, sample_json !! "source" = Some v → (∀ m, v ≠ JObj m) →
       from_json [ "type"; "time" ] sample_json = Raise TypeError)
  ∧ (∀ m, sample_json !! "source" = Some (JObj m) → m !! "id" = None →
       from_json [ "type"; "time" ] sample_json = Raise (KeyError "id"))
  ∧ (∀ m i, sample_json !! "source" = Some (JObj m) → m !! "id" = Some i →
       ∃ e, from_json [ "type"; "time" ] sample_json = Ok e ∧ source e = i).
Proof.
  apply (from_json_source_errors [ "type"; "time" ] sample_json).
  repeat constructor; vm_compute; eauto.
Defined.

Lemma to_json_excludes_creation_time_witness :
  to_json sample_event false !! "creationTime" = None.
Proof.
  apply (to_json_excludes_creation_time sample_event false).
  vm_compute. reflexivity.
Defined.


(** ** Access by identifier *)

Section Access.

Variable respond : list request -> request -> json.
Variable required : list string.
Variable conn : CumulocityRestApi.

(** X11: [Events.get] sends exactly one request, a GET for the object
    path of the identifier, whether it succeeds or fails.  When it
    returns an event, the answer was a JSON object, the event is what
    [Event.from_json] builds from it, with the connection of the
    collection injected, and it reports an attachment exactly when the
    answer holds a key [c8y_IsBinary]. *)
Theorem get_sends_one_request (event_id : json) (w : World) :
  let r := GET (_resource ++ "/" ++ str event_id) in
  ∃ res,
    Events.get respond required conn event_id w = (res, sent r w)
    ∧ ∀ e, res = Ok e →
        ∃ m e0,
          respond (requests w) r = JObj m
          ∧ from_json required m = Ok e0
          ∧ e = set_c8y (Some conn) e0
          ∧ (has_attachment e = true ↔ is_Some (m !! "c8y_IsBinary")).
Proof.
  intros r. unfold Events.get, Events._get_object, Events.build_object_path,
    send, lift, mbind, M_bind, bind. fold r.
  destruct (respond (requests w) r) as [| | | | |m] eqn:Hr; cbn [parse_fun];
    try (eexists; split; [reflexivity | discriminate]).
  destruct (from_json required m) as [e0|x] eqn:He;
    [|eexists; split; [reflexivity | discriminate]].
  eexists. split; [reflexivity |]. intros e [= <-].
  exists m, e0. repeat split; try done.
  - unfold has_attachment, contains. cbn [fragments set_c8y].
    intros H%bool_decide_eq_true.
    rewrite from_json_unfold in He.
    destruct (missing_key required m); [discriminate |].
    destruct (m !! "source") as [v|]; [|discriminate].
    destruct (subscript v "id"); [|discriminate].
    injection He as <-. cbn [fragments] in H.
    by rewrite lookup_parse_fragments in H.
  - unfold has_attachment, contains. cbn [fragments set_c8y].
    intros H. apply bool_decide_eq_true.
    rewrite from_json_unfold in He.
    destruct (missing_key required m); [discriminate |].
    destruct (m !! "source") as [v|]; [|discriminate].
    destruct (subscript v "id"); [|discriminate].
    injection He as <-. cbn [fragments].
    by rewrite lookup_parse_fragments.
Qed.

End Access.


(** ** Greedy listing *)

Section Listing.

Variable respond : list request -> request -> json.
Variable to_timestring : Z -> string.
Variable utcnow : nat -> Z.
Variable quote : string -> string.
Variable required : list string.
Variable conn : CumulocityRestApi.

(** Every element of a parsed page carries the connection. *)
Lemma parse_all_conn (xs : list json) (es : list Event) :
  parse_all required conn xs = Ok es →
  Forall (fun e => c8y e = Some conn) es.
Proof.
  revert es. induction xs as [|x xs IH]; intros es; cbn.
  - intros [= <-]. constructor.
  - destruct (parse_fun required x); cbn; [|discriminate].
    destruct (parse_all required conn xs); cbn; [|discriminate].
    intros [= <-]. constructor; [reflexivity | by apply IH].
Qed.

(** The fetch of a page sends its request, whatever comes back. *)
Lemma _get_page_world (bq : string) (p : nat) (w : World) :
  ∃ r, _get_page respond bq p w
       = (r, sent (GET (bq ++ page_param ++ pretty p)) w).
Proof.
  unfold _get_page, send, lift, mbind, M_bind, bind. cbv beta iota.
  destruct (subscript _ "events") as [[]|]; eauto.
Qed.

(** The ways in which the generator is resumed: it ends without a
    request, hands out an element of the page at hand, or fetches the
    next page, which fails, ends the iteration or yields an element. *)
Lemma next_spec (it : Iterator) (w : World) :
  (∃ it', next respond required conn it w = (Ok (None, it'), w))
  ∨ (∃ e rest,
       exhausted it = false ∧ limit_reached it = false
       ∧ pending it = e :: rest
       ∧ next respond required conn it w = (Ok (Some e, handed it rest), w))
  ∨ (exhausted it = false ∧ limit_reached it = false ∧ pending it = []
     ∧ (page_number it = None ∨ pages_read it = 0%nat)
     ∧ ((∃ x, next respond required conn it w
              = (Raise x, sent (page_request it) w))
        ∨ next respond required conn it w
          = (Ok (None, stop it), sent (page_request it) w)
        ∨ ∃ e rest,
            Forall (fun e => c8y e = Some conn) (e :: rest)
            ∧ next respond required conn it w
              = (Ok (Some e, fetched it rest), sent (page_request it) w))).
Proof.
  unfold next.
  destruct (exhausted it) eqn:He; [left; eauto |].
  destruct (limit_reached it) eqn:Hl; [left; eauto |].
  destruct (pending it) as [|e rest] eqn:Hp; [|right; left; eauto 10].
  destruct (bool_decide (is_Some (page_number it))
            && negb (Nat.eqb (pages_read it) 0)) eqn:Hc; [left; eauto |].
  right; right. do 3 (split; [done |]). split.
  { apply andb_false_iff in Hc as [Hc | Hc].
    - left. apply bool_decide_eq_false in Hc.
      destruct (page_number it); [|done]. destruct Hc. eauto.
    - right. apply negb_false_iff, Nat.eqb_eq in Hc. done. }
  destruct (_get_page_world (base_query it) (current_page it) w) as [r Hr].
  unfold mbind, M_bind, bind. rewrite Hr. fold (page_request it).
  destruct r as [page|x]; [|left; eauto].
  unfold lift.
  destruct (parse_all required conn page) as [[|e rest]|x] eqn:Hparse;
    [right; left; done | | left; eauto].
  right; right. exists e, rest. split; [|done].
  by apply parse_all_conn in Hparse.
Qed.

(** [list(generator)], one element further. *)
Lemma list_of_S (fuel : nat) (it : Iterator) (w : World) :
  Events.list_of respond required conn (S fuel) it w =
  match next respond required conn it w with
  | (Ok (None, _), w1) => (Ok (Some []), w1)
  | (Ok (Some e, it'), w1) =>
      match Events.list_of respond required conn fuel it' w1 with
      | (Ok rs, w2) => (Ok (cons e <$> rs), w2)
      | (Raise x, w2) => (Raise x, w2)
      end
  | (Raise x, w1) => (Raise x, w1)
  end.
Proof.
  cbn [Events.list_of]. unfold mbind, M_bind, bind.
  destruct (next respond required conn it w) as [[[[e|] it']|x] w1];
    reflexivity.
Qed.

(** A generator for a specific page which has read its page sends
    nothing any more. *)
Lemma list_of_page_read (fuel : nat) (it : Iterator) (w : World) (p : nat) :
  page_number it = Some p → pages_read it ≠ 0%nat →
  snd (Events.list_of respond required conn fuel it w) = w.
Proof.
  revert it w. induction fuel as [|fuel IH]; intros it w Hp Hr; [done |].
  rewrite list_of_S.
  destruct (next_spec it w)
    as [(it' & Hn) | [(e & rest & _ & _ & _ & Hn)
        | (_ & _ & _ & [Hc | Hc] & _)]]; [| |congruence | done];
    rewrite Hn; [done |].
  specialize (IH (handed it rest) w Hp Hr).
  destruct (Events.list_of respond required conn fuel (handed it rest) w)
    as [[rs|x] w2]; exact IH.
Qed.

(** A generator for a specific page sends at most the request for that
    page. *)
Lemma list_of_one_page (fuel : nat) (it : Iterator) (w : World) (p : nat) :
  page_number it = Some p →
  snd (Events.list_of respond required conn fuel it w) = w
  ∨ snd (Events.list_of respond required conn fuel it w)
    = sent (page_request it) w.
Proof.
  revert it w. induction fuel as [|fuel IH]; intros it w Hp; [by left |].
  rewrite list_of_S.
  destruct (next_spec it w)
    as [(it' & Hn) | [(e & rest & _ & _ & _ & Hn)
        | (_ & _ & _ & _ & [(x & Hn) | [Hn | (e & rest & _ & Hn)]])]];
    rewrite Hn; [by left | | by right | by right |].
  - specialize (IH (handed it rest) w Hp).
    destruct (Events.list_of respond required conn fuel (handed it rest) w)
      as [[rs|x] w2]; exact IH.
  - right.
    pose proof (list_of_page_read fuel (fetched it rest)
                  (sent (page_request it) w) p Hp) as H.
    destruct (Events.list_of respond required conn fuel (fetched it rest)
                (sent (page_request it) w)) as [[rs|x] w2];
      apply H; done.
Qed.

(** X14: [Events.get_all] for a specific page sends nothing or the one
    GET request for that page, the base query of the filters completed
    by the page number, whatever the limit is, whatever the platform
    answers and whether the call succeeds or fails: no following page is
    fetched. *)
Theorem get_all_page_number_fetches_once (fuel : nat) (f : Filters.t)
    (reverse : bool) (limit : option nat) (page_size p : nat) (w : World) :
  let w' :=
    snd (Events.get_all respond to_timestring utcnow quote required conn
           fuel f reverse limit page_size (Some p) w) in
  let query :=
    render_query (_query_params to_timestring quote (query_now utcnow f w) f
                    (Some reverse) (Some page_size)) in
  requests w' = requests w
  ∨ requests w'
    = (requests w ++ [ GET (query ++ page_param ++ pretty p) ])%list.
Proof.
  intros w' query. subst w'.
  unfold Events.get_all, select, mbind, M_bind, bind.
  rewrite _build_base_query_run. cbn [ret]. fold query.
  assert (Hr : requests (after_query f w) = requests w)
    by (unfold after_query; by destruct (needs_clock f)).
  match goal with
  | |- context [Events.list_of _ _ _ _ ?it _] =>
      destruct (list_of_one_page fuel it (after_query f w) p eq_refl)
        as [-> | ->]
  end.
  - by left.
  - right. cbn. by rewrite Hr.
Qed.

End Listing.


(** ** Bulk creation, continued *)

Section CreateMore.

Variable to_timestring : Z -> string.
Variable utcnow : nat -> Z.
Variable _create : (Event -> gmap string json) -> list nat -> M unit.
Variable to_full_json : Event -> gmap string json.

(** The loop of [Events.create] over events which all have a time. *)
Lemma default_times_set (events : list nat) (w : World) :
  Forall (fun l => truthy (time (heap w l)) = true) events →
  for_each (default_time to_timestring utcnow) events w = (Ok tt, w).
Proof.
  induction 1 as [|l rest Hl _ IH]; [reflexivity |].
  cbn [for_each]. unfold mbind, M_bind, bind.
  rewrite default_time_run, Hl. exact IH.
Qed.

(** X15: when every event handed to [Events.create] has its time set,
    the clock is not read and no object is changed: the events are
    handed over for creation in the world of the call. *)
Theorem create_with_times_set (events : list nat) (w : World) :
  Forall (fun l => truthy (time (heap w l)) = true) events →
  create to_timestring utcnow _create to_full_json events w
  = _create to_full_json events w.
Proof.
  intros H. unfold create, mbind, M_bind, bind.
  by rewrite default_times_set.
Qed.

(** X16: when the formatted time is never the empty string,
    [Events.create] hands its events over for creation in a world in
    which every one of them has a time. *)
Theorem create_leaves_no_event_without_time (events : list nat)
    (w : World) :
  (∀ d, to_timestring d ≠ "") →
  ∃ w',
    create to_timestring utcnow _create to_full_json events w
    = _create to_full_json events w'
    ∧ ∀ l, l ∈ events → truthy (time (heap w' l)) = true.
Proof.
  intros Hts.
  destruct (default_times_run to_timestring utcnow _create to_full_json events w)
    as (w' & Hrun & _ & _ & Hheap).
  exists w'. split.
  - unfold create, mbind, M_bind, bind. by rewrite Hrun.
  - intros l Hl. destruct (Hheap l) as (_ & Hset & Hunset).
    destruct (truthy (time (heap w l))) eqn:Ht.
    + by rewrite Hset.
    + destruct (Hunset Hl eq_refl) as (k & _ & ->). cbn.
      apply negb_true_iff, String.eqb_neq, Hts.
Qed.

End CreateMore.

Lemma create_with_times_set_witness :
  create (fun d => "T" ++ pretty d) (fun n => Z.of_nat n + 100)%Z
    (fun _ _ => ret tt) (fun e => to_json e false) [0; 1]%nat
    (mkWorld [] 0 (fun _ => sample_event))
  = (fun _ _ => ret tt) (fun e => to_json e false) [0; 1]%nat
      (mkWorld [] 0 (fun _ => sample_event)).
Proof.
  apply (create_with_times_set (fun d => "T" ++ pretty d)
           (fun n => Z.of_nat n + 100)%Z (fun _ _ => ret tt)
           (fun e => to_json e false) [0; 1]%nat
           (mkWorld [] 0 (fun _ => sample_event))).
  repeat constructor.
Defined.

Lemma create_leaves_no_event_without_time_witness :
  ∃ w',
    create (fun d => "T" ++ pretty d) (fun n => Z.of_nat n + 100)%Z
      (fun _ _ => ret tt) (fun e => to_json e false) [0; 1]%nat
      (mkWorld [] 0 (fun _ => set_time JNull sample_event))
    = (fun _ _ => ret tt) (fun e => to_json e false) [0; 1]%nat w'
    ∧ ∀ l, l ∈ [0; 1]%nat → truthy (time (heap w' l)) = true.
Proof.
  apply (create_leaves_no_event_without_time (fun d => "T" ++ pretty d)
           (fun n => Z.of_nat n + 100)%Z (fun _ _ => ret tt)
           (fun e => to_json e false) [0; 1]%nat
           (mkWorld [] 0 (fun _ => set_time JNull sample_event))).
  intros d. discriminate.
Defined.
